(** * Featurizer of the intent classifier

    A shallow embedding of [snips_nlu/intent_classifier/featurizer.py] and the
    properties its specification states about it.

    Conventions of the embedding:
    - Python [str] is [string]; [dict] is [gmap]; [set] is [gset]; a list is
      a [list].
    - Python floats (p-values, thresholds, IDF weights, matrix entries) are
      exact rationals [Qc]; rounding is outside the model, and so is NaN,
      except in [Selector.initial_best_features_nan], which is the threshold
      rule on p-values that can be NaN.
    - [to_dict] lists each set of names in one fixed order;
      [possible_snapshot] covers the orders Python can list it in.
    - A call that can raise returns [Res]; [self] is threaded explicitly, so a
      method that mutates [self] returns the new state next to its result.
    - The collaborators the module imports (tokenizer, normalizer, stemmer,
      resources, scikit-learn, the configuration class) are the fields of
      [Externals]; every statement holds for all of them. *)

From stdpp Require Import gmap strings list fin_maps numbers sorting.
From Stdlib Require Import QArith Qcanon Ascii.

Set Warnings "-clear-no-such-hyp".
Open Scope Qc_scope.

(** ** Exceptions and results *)

Inductive pykey :=
  | KStr (s : string)
  | KInt (n : nat).

Inductive exn :=
  | KeyError (k : pykey)
  | AttributeError (attr : string)
  | TypeError
  | ValueError
  | IndexError
  | NotFittedError.

Inductive Res (A : Type) :=
  | Ok (a : A)
  | Raise (e : exn).
Arguments Ok {A} a.
Arguments Raise {A} e.

Definition res_bind {A B} (f : A → Res B) (m : Res A) : Res B :=
  match m with
  | Ok a => f a
  | Raise e => Raise e
  end.

#[global] Instance res_mbind : MBind Res := @res_bind.
#[global] Instance res_mret : MRet Res := @Ok.

Definition raises {A} (m : Res A) : Prop :=
  match m with
  | Ok _ => False
  | Raise _ => True
  end.

(** [d[k]] on a dict with string keys. *)
Definition getitem {V} (d : gmap string V) (k : string) : Res V :=
  match d !! k with
  | Some v => Ok v
  | None => Raise (KeyError (KStr k))
  end.

(** Monadic left fold: a [for] loop whose body can raise. *)
Fixpoint foldlM {A B} (f : B → A → Res B) (acc : B) (l : list A) : Res B :=
  match l with
  | [] => Ok acc
  | x :: l' => acc' ← f acc x; foldlM f acc' l'
  end.

(** ** Feature selection (the body of [Featurizer.fit], lines 75-89) *)

Module Selector.
(** [enumerate(pval)] *)
Definition enumerate {A} (l : list A) : list (nat * A) :=
  imap (λ i v, (i, v)) l.

(** [[i for i, v in enumerate(pval) if v < self.pvalue_threshold]] *)
Definition below_threshold (pval : list Qc) (thr : Qc) : list nat :=
  (filter (λ iv : nat * Qc, iv.2 < thr) (enumerate pval)).*1.

(** [pval.min()]; numpy raises on an empty array. *)
Definition np_min (pval : list Qc) : option Qc :=
  match pval with
  | [] => None
  | p :: ps => Some (foldl (λ m v, if decide (v < m) then v else m) p ps)
  end.

(** [[idx for idx, val in enumerate(pval) if val == pval.min()]]. The
    condition is evaluated once per element, hence never on an empty
    array. *)
Definition at_minimum (pval : list Qc) : list nat :=
  (filter (λ iv : nat * Qc, np_min pval = Some iv.2) (enumerate pval)).*1.

(** Lines 76-80: the threshold rule and its fallback. *)
Definition initial_best_features (pval : list Qc) (thr : Qc) : list nat :=
  let best_features := below_threshold pval thr in
  if bool_decide (best_features = []) then at_minimum pval
  else best_features.

(** [features_idx = {vocabulary_[x]: x for x in vocabulary_}] *)
Definition features_idx (vocabulary_ : gmap string nat) : gmap nat string :=
  map_fold (λ x i acc, <[i := x]> acc) ∅ vocabulary_.

(** Lines 83-84: the body of the loop that fills [feature_names];
    [features_idx[i]] raises on an index the vocabulary does not name. *)
Definition feature_names_step (fidx : gmap nat string) (pval : list Qc)
    (names : gmap nat (string * Qc)) (i : nat)
    : Res (gmap nat (string * Qc)) :=
  match fidx !! i with
  | None => Raise (KeyError (KInt i))
  | Some word =>
      match pval !! i with
      | None => Raise IndexError
      | Some p => Ok (<[i := (word, p)]> names)
      end
  end.

(** Lines 82-84: [feature_names[i] = {'word': ..., 'pval': ...}]. *)
Definition feature_names (fidx : gmap nat string) (pval : list Qc)
    (best_features : list nat) : Res (gmap nat (string * Qc)) :=
  foldlM (feature_names_step fidx pval) ∅ best_features.

(** [list.remove(x)]: drops the first occurrence, raises when there is
    none. *)
Fixpoint list_remove (x : nat) (l : list nat) : Res (list nat) :=
  match l with
  | [] => Raise ValueError
  | y :: l' =>
      if decide (x = y) then Ok l'
      else l'' ← list_remove x l'; Ok (y :: l'')
  end.

(** Lines 86-89: one iteration of the demotion loop. *)
Definition demote_step (stop_words : gset string) (thr : Qc)
    (best_features : list nat) (entry : nat * (string * Qc))
    : Res (list nat) :=
  let '(feat, (word, p)) := entry in
  if decide (word ∈ stop_words) then
    if decide (thr / Q2Qc 2 < p) then list_remove feat best_features
    else Ok best_features
  else Ok best_features.

(** Lines 86-89: the loop runs over the keys of the dict [feature_names],
    in the dict's own order. *)
Definition demote_stop_words (stop_words : gset string) (thr : Qc)
    (names : gmap nat (string * Qc)) (best_features : list nat)
    : Res (list nat) :=
  foldlM (demote_step stop_words thr) best_features (map_to_list names).

(** Lines 76-89 as one function of the p-values. *)
Definition select_features (fidx : gmap nat string)
    (stop_words : gset string) (pval : list Qc) (thr : Qc)
    : Res (list nat) :=
  let best_features := initial_best_features pval thr in
  names ← feature_names fidx pval best_features;
  demote_stop_words stop_words thr names best_features.

(** The index [i] is demoted by the entries [kvs]: its token is a stop word
    whose p-value exceeds half the threshold. *)
Definition demoted (stop_words : gset string) (thr : Qc)
    (kvs : list (nat * (string * Qc))) (i : nat) : Prop :=
  ∃ w p, (i, (w, p)) ∈ kvs ∧ w ∈ stop_words ∧ thr / Q2Qc 2 < p.

(** *** P-values that can be NaN

    [chi2] returns NaN for every column when the labels have a single
    class. Below a p-value is [None] when it is NaN: a comparison with NaN
    is false, and the minimum of an array that holds a NaN is NaN. *)

(** [v < thr] *)
Definition float_ltb (v : option Qc) (thr : Qc) : bool :=
  match v with
  | Some q => bool_decide (q < thr)
  | None => false
  end.

(** [v == m] *)
Definition float_eqb (v m : option Qc) : bool :=
  match v, m with
  | Some q, Some r => bool_decide (q = r)
  | _, _ => false
  end.

(** [pval.min()]: numpy raises on an empty array (the outer [None]) and
    returns NaN (the inner [None]) as soon as one entry is NaN. *)
Definition np_min_nan (pval : list (option Qc)) : option (option Qc) :=
  match pval with
  | [] => None
  | _ => Some (mapM id pval ≫= np_min)
  end.

(** [val == pval.min()] *)
Definition is_minimum (pval : list (option Qc)) (val : option Qc) : bool :=
  match np_min_nan pval with
  | Some m => float_eqb val m
  | None => false
  end.

Definition below_threshold_nan (pval : list (option Qc)) (thr : Qc)
    : list nat :=
  (filter (λ iv : nat * option Qc, float_ltb iv.2 thr = true)
     (enumerate pval)).*1.

Definition at_minimum_nan (pval : list (option Qc)) : list nat :=
  (filter (λ iv : nat * option Qc, is_minimum pval iv.2 = true)
     (enumerate pval)).*1.

(** Lines 76-80 on p-values that can be NaN. *)
Definition initial_best_features_nan (pval : list (option Qc)) (thr : Qc)
    : list nat :=
  let best_features := below_threshold_nan pval thr in
  if bool_decide (best_features = []) then at_minimum_nan pval
  else best_features.

End Selector.

(** ** Strings *)

(** [sorted(l)] on a list of [str], which Python orders by code point. *)
Definition sorted (l : list string) : list string := merge_sort String.le l.

(** [sep.join(l)] *)
Definition join (sep : string) (l : list string) : string :=
  String.concat sep l.

(** ** Scikit-learn objects, as far as the module reads and writes them *)

(** A keyword-argument value. *)
Inductive pyarg :=
  | ABool (b : bool)
  | AStr (s : string)
  | ANum (q : Qc)
  | ANone.

(** The weighting options and the fitted state of a [TfidfTransformer];
    the [transform] of a [TfidfVectorizer] delegates to this object. *)
Record TfidfTransformer := mkTfidfTransformer {
  norm : pyarg;
  use_idf : pyarg;
  smooth_idf : pyarg;
  sublinear_tf : pyarg;
  _idf_diag : option (list Qc)
}.

(** [TfidfTransformer] built from keyword arguments, with scikit-learn's defaults
    [norm='l2', use_idf=True, smooth_idf=True, sublinear_tf=False]. *)
Definition new_TfidfTransformer (kw : gmap string pyarg) : TfidfTransformer :=
  {| norm := default (AStr "l2") (kw !! "norm");
     use_idf := default (ABool true) (kw !! "use_idf");
     smooth_idf := default (ABool true) (kw !! "smooth_idf");
     sublinear_tf := default (ABool false) (kw !! "sublinear_tf");
     _idf_diag := None |}.

(** A [TfidfVectorizer]: the language its tokenizer closure captures, the
    keyword arguments it was built with, the attribute [vocabulary_] (absent
    until fitted) and its [_tfidf] transformer. *)
Record TfidfVectorizer := mkTfidfVectorizer {
  tokenizer_language : string;
  init_kwargs : gmap string pyarg;
  vocabulary_ : option (gmap string nat);
  _tfidf : TfidfTransformer
}.

(** [TfidfVectorizer(tokenizer=..., **extra_args)]: the constructor hands
    the weighting options among its keyword arguments to its
    [TfidfTransformer]. *)
Definition new_TfidfVectorizer (language : string)
    (extra_args : gmap string pyarg) : TfidfVectorizer :=
  {| tokenizer_language := language;
     init_kwargs := extra_args;
     vocabulary_ := None;
     _tfidf := new_TfidfTransformer extra_args |}.

(** A term matrix, one row per utterance. *)
Definition Matrix : Type := list (list Qc).

(** [X[:, best_features]]: the listed columns of every row, in the order
    listed. *)
Definition select_columns (X : Matrix) (best_features : option (list nat))
    : Res Matrix :=
  match best_features with
  | None => Raise IndexError
  | Some cols =>
      foldr (λ row rest,
        rest' ← rest;
        row' ← foldr (λ j acc,
                  acc' ← acc;
                  match row !! j with
                  | Some x => Ok (x :: acc')
                  | None => Raise IndexError
                  end) (Ok []) cols;
        Ok (row' :: rest')) (Ok []) X
  end.

(** ** Collaborators *)

(** What the module imports from the rest of the package and from its
    libraries. [stem] returns [None] where the original raises
    [UnknownResource]; [get_all_ngrams] yields the [NGRAM] text of every
    n-gram; [str_lower] is [str.lower]; [CLUSTER_USED_PER_LANGUAGES] is the
    module-level table of the same name. *)
Class Externals := {
  FeaturizerConfig : Type;
  config_to_dict : FeaturizerConfig → gmap string pyarg;
  config_from_dict : gmap string pyarg → Res FeaturizerConfig;
  tokenize_light : string → string → list string;
  normalize : string → string;
  stem : string → string → option string;
  get_default_sep : string → string;
  get_stop_words : string → gset string;
  get_word_clusters : string → gmap string (gmap string string);
  is_builtin_entity : string → bool;
  get_all_ngrams : list string → list string;
  str_lower : string → string;
  CLUSTER_USED_PER_LANGUAGES : gmap string string;
  sk_fit_transform :
    TfidfVectorizer → list string → Res (TfidfVectorizer * Matrix);
  sk_transform : TfidfVectorizer → list string → Res Matrix;
  chi2 : Matrix → list nat → Res (list Qc)
}.

(** A dataset: for every entity name, its example utterances. *)
Definition Dataset : Type := gmap string (list string).

(** The lexicon lists the feature name [f] under the key [k]. *)
Definition has_feature (lexicon : gmap string (gset string))
    (k f : string) : Prop :=
  ∃ names, lexicon !! k = Some names ∧ f ∈ names.

Section featurizer.
Context `{E : Externals}.

(** ** Module-level helpers *)

Definition _get_tfidf_vectorizer (language : string)
    (extra_args : gmap string pyarg) : TfidfVectorizer :=
  new_TfidfVectorizer language extra_args.

Definition _get_tokens_clusters (tokens : list string)
    (language cluster_name : string) : Res (list string) :=
  clusters ← getitem (get_word_clusters language) cluster_name;
  Ok (omap (λ t, clusters !! t) tokens).

Definition _entity_name_to_feature (entity_name language : string) : string :=
  "entityfeature" +:+ join "" (tokenize_light entity_name language).

Definition _normalize_stem (text language : string) : string :=
  let normalized_stemmed := normalize text in
  match stem normalized_stemmed language with
  | Some stemmed => stemmed
  | None => normalized_stemmed
  end.

Definition _get_word_cluster_features (query_tokens : list string)
    (language : string) : Res (list string) :=
  match CLUSTER_USED_PER_LANGUAGES !! language with
  | None => Ok []
  | Some cluster_name =>
      if decide (cluster_name = "") then Ok []
      else
        let ngrams := get_all_ngrams query_tokens in
        foldlM (λ cluster_features ngram,
          clusters ← getitem (get_word_clusters language) cluster_name;
          match clusters !! str_lower ngram with
          | Some cluster => Ok (cluster_features ++ [cluster])
          | None => Ok cluster_features
          end) [] ngrams
  end.

Definition _get_dataset_entities_features
    (normalized_stemmed_tokens : list string)
    (entity_utterances_to_entity_names : option (gmap string (gset string)))
    : Res (list string) :=
  let ngrams := get_all_ngrams normalized_stemmed_tokens in
  foldlM (λ entity_features ngram,
    match entity_utterances_to_entity_names with
    | None => Raise (AttributeError "get")
    | Some lexicon =>
        match lexicon !! ngram with
        | Some names => Ok (entity_features ++ elements names)
        | None => Ok entity_features
        end
    end) [] ngrams.

Definition _preprocess_query (query language : string)
    (entity_utterances_to_features_names : option (gmap string (gset string)))
    : Res string :=
  let query_tokens := tokenize_light query language in
  word_clusters_features ← _get_word_cluster_features query_tokens language;
  let normalized_stemmed_tokens :=
    (λ t, _normalize_stem t language) <$> query_tokens in
  entities_features ← _get_dataset_entities_features
    normalized_stemmed_tokens entity_utterances_to_features_names;
  let features := join (get_default_sep language) normalized_stemmed_tokens in
  let features :=
    if decide (entities_features = []) then features
    else features +:+ " " +:+ join " " (sorted entities_features) in
  let features :=
    if decide (word_clusters_features = []) then features
    else features +:+ " " +:+ join " " (sorted word_clusters_features) in
  Ok features.

Definition _get_utterances_to_features_names (dataset : Dataset)
    (language : string) : gmap string (gset string) :=
  map_fold (λ entity_name utterances utterances_to_features,
    if is_builtin_entity entity_name then utterances_to_features
    else
      foldl (λ acc u,
        <[u := default ∅ (acc !! u)
                 ∪ {[_entity_name_to_feature entity_name language]}]> acc)
        utterances_to_features utterances)
    ∅ dataset.

(** ** The class [Featurizer] *)

Record Featurizer := mkFeaturizer {
  config : FeaturizerConfig;
  language : string;
  tfidf_vectorizer : TfidfVectorizer;
  best_features : option (list nat);
  pvalue_threshold : Qc;
  entity_utterances_to_feature_names : option (gmap string (gset string));
  unknown_words_replacement_string : option string
}.

(** Attribute assignments on [self]. *)
Definition set_entity_utterances_to_feature_names (self : Featurizer)
    (v : option (gmap string (gset string))) : Featurizer :=
  {| config := config self;
     language := language self;
     tfidf_vectorizer := tfidf_vectorizer self;
     best_features := best_features self;
     pvalue_threshold := pvalue_threshold self;
     entity_utterances_to_feature_names := v;
     unknown_words_replacement_string :=
       unknown_words_replacement_string self |}.

Definition set_tfidf_vectorizer (self : Featurizer) (v : TfidfVectorizer)
    : Featurizer :=
  {| config := config self;
     language := language self;
     tfidf_vectorizer := v;
     best_features := best_features self;
     pvalue_threshold := pvalue_threshold self;
     entity_utterances_to_feature_names :=
       entity_utterances_to_feature_names self;
     unknown_words_replacement_string :=
       unknown_words_replacement_string self |}.

Definition set_best_features (self : Featurizer) (v : option (list nat))
    : Featurizer :=
  {| config := config self;
     language := language self;
     tfidf_vectorizer := tfidf_vectorizer self;
     best_features := v;
     pvalue_threshold := pvalue_threshold self;
     entity_utterances_to_feature_names :=
       entity_utterances_to_feature_names self;
     unknown_words_replacement_string :=
       unknown_words_replacement_string self |}.

(** [Featurizer.__init__]; the optional arguments are passed explicitly. *)
Definition __init__ (language : string)
    (unknown_words_replacement_string : option string)
    (config : FeaturizerConfig)
    (tfidf_vectorizer : option TfidfVectorizer)
    (best_features : option (list nat))
    (entity_utterances_to_feature_names :
       option (gmap string (gset string)))
    (pvalue_threshold : Qc) : Featurizer :=
  {| config := config;
     language := language;
     tfidf_vectorizer :=
       match tfidf_vectorizer with
       | None => _get_tfidf_vectorizer language (config_to_dict config)
       | Some v => v
       end;
     best_features := best_features;
     pvalue_threshold := pvalue_threshold;
     entity_utterances_to_feature_names :=
       entity_utterances_to_feature_names;
     unknown_words_replacement_string :=
       unknown_words_replacement_string |}.

(** Lines 51-54 of [fit]: the lexicon keyed by normalized and stemmed
    utterances. *)
Definition normalized_utterances_to_features
    (utterances_to_features : gmap string (gset string))
    (language : string) : gmap string (gset string) :=
  map_fold (λ k v normalized,
    let nk := _normalize_stem k language in
    <[nk := default ∅ (normalized !! nk) ∪ v]> normalized)
    ∅ utterances_to_features.

(** Lines 55-59 of [fit]: the unknown-word string is popped from the
    lexicon. *)
Definition pop_unknown_word (unknown : option string)
    (normalized : gmap string (gset string)) : gmap string (gset string) :=
  match unknown with
  | None => normalized
  | Some s =>
      if decide (is_Some (normalized !! s)) then delete s normalized
      else normalized
  end.

(** Lines 49-61 of [fit]: the value assigned to
    [self.entity_utterances_to_feature_names]. *)
Definition fitted_lexicon (self : Featurizer) (dataset : Dataset)
    : gmap string (gset string) :=
  let utterances_to_features :=
    _get_utterances_to_features_names dataset (language self) in
  pop_unknown_word (unknown_words_replacement_string self)
    (normalized_utterances_to_features utterances_to_features
       (language self)).

Definition preprocess_queries (self : Featurizer) (queries : list string)
    : Res (list string) :=
  foldlM (λ preprocessed_queries q,
    processed_query ← _preprocess_query q (language self)
      (entity_utterances_to_feature_names self);
    Ok (preprocessed_queries ++ [processed_query])) [] queries.

(** What [fit] returns: [None] or [self]. *)
Inductive fit_return :=
  | ReturnNone
  | ReturnSelf.

(** Line 63: [all(not "".join(tokenize_light(q, language)) for q in
    queries)]. *)
Definition all_queries_empty (language : string) (queries : list string)
    : bool :=
  forallb (λ q, bool_decide (join "" (tokenize_light q language) = ""))
    queries.

(** [Featurizer.fit]: the state of [self] when the call ends, and what the
    call returns or raises. *)
Definition fit (self : Featurizer) (dataset : Dataset)
    (queries : list string) (y : list nat) : Featurizer * Res fit_return :=
  let self :=
    set_entity_utterances_to_feature_names self
      (Some (fitted_lexicon self dataset)) in
  if all_queries_empty (language self) queries then (self, Ok ReturnNone)
  else
    match preprocess_queries self queries with
    | Raise e => (self, Raise e)
    | Ok preprocessed_queries =>
    match sk_fit_transform (tfidf_vectorizer self) preprocessed_queries with
    | Raise e => (self, Raise e)
    | Ok (vectorizer, X_train_tfidf) =>
    let self := set_tfidf_vectorizer self vectorizer in
    match vocabulary_ vectorizer with
    | None => (self, Raise (AttributeError "vocabulary_"))
    | Some vocabulary =>
    let features_idx := Selector.features_idx vocabulary in
    let stop_words := get_stop_words (language self) in
    match chi2 X_train_tfidf y with
    | Raise e => (self, Raise e)
    | Ok pval =>
    let best :=
      Selector.initial_best_features pval (pvalue_threshold self) in
    let self := set_best_features self (Some best) in
    match Selector.feature_names features_idx pval best with
    | Raise e => (self, Raise e)
    | Ok feature_names =>
    match Selector.demote_stop_words stop_words (pvalue_threshold self)
            feature_names best with
    | Raise e => (self, Raise e)
    | Ok final => (set_best_features self (Some final), Ok ReturnSelf)
    end end end end end end.

Definition transform (self : Featurizer) (queries : list string)
    : Res Matrix :=
  preprocessed_queries ← preprocess_queries self queries;
  X_train_tfidf ← sk_transform (tfidf_vectorizer self) preprocessed_queries;
  select_columns X_train_tfidf (best_features self).

(** [self.fit(dataset, queries, y).transform(queries)]: [transform] is
    looked up on whatever [fit] returned. *)
Definition fit_transform (self : Featurizer) (dataset : Dataset)
    (queries : list string) (y : list nat) : Featurizer * Res Matrix :=
  match fit self dataset queries y with
  | (self', Raise e) => (self', Raise e)
  | (self', Ok ReturnNone) => (self', Raise (AttributeError "transform"))
  | (self', Ok ReturnSelf) => (self', transform self' queries)
  end.

(** ** Serialization *)

(** The dict under the key ['tfidf_vectorizer']. A field is [None] when the
    key is missing; the value under a present key can itself be Python's
    [None]. *)
Record VectorizerDict := mkVectorizerDict {
  vd_vocab : option (option (gmap string nat));
  vd_idf_diag : option (option (list Qc))
}.

(** The dict [to_dict] produces and [from_dict] consumes, one field per
    key, [None] when the key is missing. *)
Record FeaturizerDict := mkFeaturizerDict {
  d_language_code : option string;
  d_tfidf_vectorizer : option VectorizerDict;
  d_best_features : option (option (list nat));
  d_pvalue_threshold : option Qc;
  d_entity_utterances_to_feature_names : option (gmap string (list string));
  d_config : option (gmap string pyarg);
  d_unknown_words_replacement_string : option (option string)
}.

(** [obj_dict[key]] *)
Definition key {A} (name : string) (field : option A) : Res A :=
  match field with
  | Some v => Ok v
  | None => Raise (KeyError (KStr name))
  end.

(** Lines 129-144 of [to_dict]: the dict returned, given the three values
    the branch on [hasattr(self.tfidf_vectorizer, "vocabulary_")] computed. *)
Definition to_dict_result (self : Featurizer)
    (vocab : option (gmap string nat)) (idf_diag : option (list Qc))
    (entity_utterances_to_entity_names : gmap string (list string))
    : FeaturizerDict :=
  let tfidf_vectorizer :=
    {| vd_vocab := Some vocab; vd_idf_diag := Some idf_diag |} in
  {| d_language_code := Some (language self);
     d_tfidf_vectorizer := Some tfidf_vectorizer;
     d_best_features := Some (best_features self);
     d_pvalue_threshold := Some (pvalue_threshold self);
     d_entity_utterances_to_feature_names :=
       Some entity_utterances_to_entity_names;
     d_config := Some (config_to_dict (config self));
     d_unknown_words_replacement_string :=
       Some (unknown_words_replacement_string self) |}.

Definition to_dict (self : Featurizer) : Res FeaturizerDict :=
  match vocabulary_ (tfidf_vectorizer self) with
  | Some vocabulary =>
      let vocab := vocabulary in
      match _idf_diag (_tfidf (tfidf_vectorizer self)) with
      | None => Raise (AttributeError "_idf_diag")
      | Some idf_diag =>
          match entity_utterances_to_feature_names self with
          | None => Raise (AttributeError "items")
          | Some lexicon =>
              Ok (to_dict_result self (Some vocab) (Some idf_diag)
                    (elements <$> lexicon))
          end
      end
  | None => Ok (to_dict_result self None None ∅)
  end.

Definition _deserialize_tfidf_vectorizer (vectorizer_dict : VectorizerDict)
    (language : string) (featurizer_config : FeaturizerConfig)
    : Res TfidfVectorizer :=
  let tfidf_vectorizer :=
    _get_tfidf_vectorizer language (config_to_dict featurizer_config) in
  let tfidf_transformer := new_TfidfTransformer ∅ in
  vocab ← key "vocab" (vd_vocab vectorizer_dict);
  '(tfidf_vectorizer, tfidf_transformer) ←
    match vocab with
    | Some vocabulary =>
        idf_diag ← key "idf_diag" (vd_idf_diag vectorizer_dict);
        match idf_diag with
        | None => Raise TypeError
        | Some idf_diag_data =>
            Ok ({| tokenizer_language := tokenizer_language tfidf_vectorizer;
                   init_kwargs := init_kwargs tfidf_vectorizer;
                   vocabulary_ := Some vocabulary;
                   _tfidf := _tfidf tfidf_vectorizer |},
                {| norm := norm tfidf_transformer;
                   use_idf := use_idf tfidf_transformer;
                   smooth_idf := smooth_idf tfidf_transformer;
                   sublinear_tf := sublinear_tf tfidf_transformer;
                   _idf_diag := Some idf_diag_data |})
        end
    | None => Ok (tfidf_vectorizer, tfidf_transformer)
    end;
  Ok {| tokenizer_language := tokenizer_language tfidf_vectorizer;
        init_kwargs := init_kwargs tfidf_vectorizer;
        vocabulary_ := vocabulary_ tfidf_vectorizer;
        _tfidf := tfidf_transformer |}.

Definition from_dict (obj_dict : FeaturizerDict) : Res Featurizer :=
  language ← key "language_code" (d_language_code obj_dict);
  config_dict ← key "config" (d_config obj_dict);
  config ← config_from_dict config_dict;
  vectorizer_dict ← key "tfidf_vectorizer" (d_tfidf_vectorizer obj_dict);
  tfidf_vectorizer ←
    _deserialize_tfidf_vectorizer vectorizer_dict language config;
  lexicon ← key "entity_utterances_to_feature_names"
    (d_entity_utterances_to_feature_names obj_dict);
  let entity_utterances_to_entity_names :=
    (list_to_set <$> lexicon : gmap string (gset string)) in
  pvalue_threshold ← key "pvalue_threshold" (d_pvalue_threshold obj_dict);
  best_features ← key "best_features" (d_best_features obj_dict);
  unknown ← key "unknown_words_replacement_string"
    (d_unknown_words_replacement_string obj_dict);
  Ok (__init__ language unknown config (Some tfidf_vectorizer) best_features
        (Some entity_utterances_to_entity_names) pvalue_threshold).

(** The vectorizer [from_dict] rebuilds from the snapshot of [self]: its
    tokenizer and keyword arguments come from the language and the
    configuration, its vocabulary and IDF weights from the snapshot, and its
    transformer is built without arguments. *)
Definition rebuilt_vectorizer (self : Featurizer) : TfidfVectorizer :=
  {| tokenizer_language := language self;
     init_kwargs := config_to_dict (config self);
     vocabulary_ := vocabulary_ (tfidf_vectorizer self);
     _tfidf :=
       {| norm := AStr "l2";
          use_idf := ABool true;
          smooth_idf := ABool true;
          sublinear_tf := ABool false;
          _idf_diag := _idf_diag (_tfidf (tfidf_vectorizer self)) |} |}.

End featurizer.

(** ** The preprocessed representation, as the specification words it *)

Section specification.
Context `{E : Externals}.

(** Each token of the query, normalized and then stemmed; the normalized
    form stands where there is no stemmer for the language. *)
Definition spec_normalized_stemmed_tokens (query language : string)
    : list string :=
  (λ t, default (normalize t) (stem (normalize t) language))
    <$> tokenize_light query language.

(** The pseudo-tokens of every n-gram of the tokens that is a key of the
    lexicon. *)
Definition spec_entity_features (tokens : list string)
    (lexicon : gmap string (gset string)) : list string :=
  ngram ← get_all_ngrams tokens;
  match lexicon !! ngram with
  | Some names => elements names
  | None => []
  end.

(** The cluster table configured for the language: empty when the language
    has no cluster name, or an empty one. *)
Definition spec_cluster_table (language : string) : gmap string string :=
  match CLUSTER_USED_PER_LANGUAGES !! language with
  | Some name =>
      if decide (name = "") then ∅
      else default ∅ (get_word_clusters language !! name)
  | None => ∅
  end.

(** The cluster label of every n-gram of the raw tokens, looked up in lower
    case. *)
Definition spec_cluster_features (tokens : list string) (language : string)
    : list string :=
  omap (λ ngram, spec_cluster_table language !! str_lower ngram)
    (get_all_ngrams tokens).

(** A block of features: nothing when there are none, else a space and the
    space-joined sorted features. *)
Definition spec_block (features : list string) : string :=
  match features with
  | [] => ""
  | _ => " " +:+ join " " (sorted features)
  end.

Definition spec_preprocessed (query language : string)
    (lexicon : gmap string (gset string)) : string :=
  let stems := spec_normalized_stemmed_tokens query language in
  join (get_default_sep language) stems
  +:+ spec_block (spec_entity_features stems lexicon)
  +:+ spec_block
        (spec_cluster_features (tokenize_light query language) language).

(** The cluster resource named for the language exists. *)
Definition cluster_resource_available (language : string) : Prop :=
  ∀ name, CLUSTER_USED_PER_LANGUAGES !! language = Some name →
    name ≠ "" → is_Some (get_word_clusters language !! name).

End specification.

(** ** Well-formedness of snapshots *)

(** A key that [from_dict] reads is missing; ['idf_diag'] is read only when
    ['vocab'] is not [None]. *)
Definition missing_required_key (d : FeaturizerDict) : Prop :=
  d_language_code d = None ∨
  d_config d = None ∨
  d_tfidf_vectorizer d = None ∨
  (∃ vd, d_tfidf_vectorizer d = Some vd ∧ vd_vocab vd = None) ∨
  (∃ vd vocab, d_tfidf_vectorizer d = Some vd ∧
     vd_vocab vd = Some (Some vocab) ∧ vd_idf_diag vd = None) ∨
  d_entity_utterances_to_feature_names d = None ∨
  d_pvalue_threshold d = None ∨
  d_best_features d = None ∨
  d_unknown_words_replacement_string d = None.

(** The vocabulary and the IDF weights of the snapshot differ in size. *)
Definition cardinality_mismatch (d : FeaturizerDict) : Prop :=
  ∃ vd vocab idf, d_tfidf_vectorizer d = Some vd ∧
    vd_vocab vd = Some (Some vocab) ∧ vd_idf_diag vd = Some (Some idf) ∧
    size vocab ≠ length idf.

(** The vectorizer has as many IDF weights as vocabulary entries, or
    neither. *)
Definition vectorizer_consistent (v : TfidfVectorizer) : Prop :=
  match vocabulary_ v, _idf_diag (_tfidf v) with
  | Some vocab, Some idf => size vocab = length idf
  | None, None => True
  | _, _ => False
  end.

(** The snapshots [d] and [d0] are the same but for the order in which the
    names under each lexicon key are listed. *)
Definition same_up_to_order (d d0 : FeaturizerDict) : Prop :=
  d_language_code d = d_language_code d0 ∧
  d_tfidf_vectorizer d = d_tfidf_vectorizer d0 ∧
  d_best_features d = d_best_features d0 ∧
  d_pvalue_threshold d = d_pvalue_threshold d0 ∧
  d_config d = d_config d0 ∧
  d_unknown_words_replacement_string d
    = d_unknown_words_replacement_string d0 ∧
  match d_entity_utterances_to_feature_names d,
        d_entity_utterances_to_feature_names d0 with
  | Some lexicon, Some lexicon0 =>
      ∀ k, option_Forall2 (≡ₚ) (lexicon !! k) (lexicon0 !! k)
  | None, None => True
  | _, _ => False
  end.

(** A snapshot [to_dict] can return for [self]. Line 120 writes [list(v)]
    for each set of names [v], and Python lists a set in an order that
    depends on hashing and on the history of the set: every order is
    possible. *)
Definition possible_snapshot `{E : Externals} (self : Featurizer)
    (d : FeaturizerDict) : Prop :=
  ∃ d0, to_dict self = Ok d0 ∧ same_up_to_order d d0.

(** The weighting options of a transformer are scikit-learn's defaults. *)
Definition default_options (t : TfidfTransformer) : Prop :=
  norm t = AStr "l2" ∧ use_idf t = ABool true ∧
  smooth_idf t = ABool true ∧ sublinear_tf t = ABool false.

(** ** A small world to run the code in

    Stand-ins for the collaborators, used to evaluate the definitions on
    concrete inputs. They are not the originals: the tokenizer splits on
    blanks, the stemmer drops a final "s" and knows English only, the
    vectorizer counts tokens with unit IDF weights, and the p-value of a
    column decreases with its total count. *)

Module Demo.

Definition ascii_lower (c : ascii) : ascii :=
  let n := nat_of_ascii c in
  if (65 <=? n)%nat && (n <=? 90)%nat then ascii_of_nat (n + 32) else c.

Fixpoint lower (s : string) : string :=
  match s with
  | EmptyString => EmptyString
  | String c s' => String (ascii_lower c) (lower s')
  end.

Fixpoint drop_final_s (s : string) : string :=
  match s with
  | EmptyString => EmptyString
  | String c EmptyString => if Ascii.eqb c "s" then EmptyString else s
  | String c s' => String c (drop_final_s s')
  end.

(** The non-empty prefixes of a token list. *)
Fixpoint prefixes (l : list string) : list (list string) :=
  match l with
  | [] => []
  | x :: l' => [x] :: (cons x <$> prefixes l')
  end.

(** Every contiguous n-gram, as blank-joined text. *)
Fixpoint ngrams (l : list string) : list string :=
  match l with
  | [] => []
  | x :: l' => (join " " <$> prefixes (x :: l')) ++ ngrams l'
  end.

Definition of_nat (n : nat) : Qc := Q2Qc (inject_Z (Z.of_nat n)).

Definition build_vocabulary (docs : list string) : gmap string nat :=
  foldl (λ v t, if decide (is_Some (v !! t)) then v else <[t := size v]> v)
    ∅ (docs ≫= String.words).

Definition count_row (vocabulary : gmap string nat) (doc : string)
    : list Qc :=
  (λ j, of_nat (length (filter (λ t, vocabulary !! t = Some j) (String.words doc))))
    <$> seq 0 (size vocabulary).

Definition fit_transform (v : TfidfVectorizer) (docs : list string)
    : Res (TfidfVectorizer * Matrix) :=
  let vocabulary := build_vocabulary docs in
  if decide (size vocabulary = 0%nat) then Raise ValueError
  else
    Ok ({| tokenizer_language := tokenizer_language v;
           init_kwargs := init_kwargs v;
           vocabulary_ := Some vocabulary;
           _tfidf :=
             {| norm := norm (_tfidf v);
                use_idf := use_idf (_tfidf v);
                smooth_idf := smooth_idf (_tfidf v);
                sublinear_tf := sublinear_tf (_tfidf v);
                _idf_diag := Some (replicate (size vocabulary) (of_nat 1)) |}
         |},
        count_row vocabulary <$> docs).

Definition transform (v : TfidfVectorizer) (docs : list string)
    : Res Matrix :=
  match vocabulary_ v, _idf_diag (_tfidf v) with
  | Some vocabulary, Some idf =>
      Ok ((λ doc, zip_with Qcmult (count_row vocabulary doc) idf) <$> docs)
  | _, _ => Raise NotFittedError
  end.

Definition column_sum (X : Matrix) (j : nat) : Qc :=
  foldr (λ row acc, default (of_nat 0) (row !! j) + acc) (of_nat 0) X.

Definition pvalues (X : Matrix) (y : list nat) : Res (list Qc) :=
  match X with
  | [] => Raise ValueError
  | row :: _ =>
      Ok ((λ j, of_nat 1 / (of_nat 1 + column_sum X j))
            <$> seq 0 (length row))
  end.

(** The configuration has the one option [sublinear_tf]. *)
Definition config_of_dict (kw : gmap string pyarg) : Res bool :=
  match kw !! "sublinear_tf" with
  | Some (ABool b) => Ok b
  | _ => Raise TypeError
  end.

Definition world : Externals :=
  {| FeaturizerConfig := bool;
     config_to_dict := λ b, {["sublinear_tf" := ABool b]};
     config_from_dict := config_of_dict;
     tokenize_light := λ text _, String.words text;
     normalize := lower;
     stem := λ text language,
       if decide (language = "en") then Some (drop_final_s text) else None;
     get_default_sep := λ _, " ";
     get_stop_words := λ _, {["the"; "to"]};
     get_word_clusters := λ _, {["brown" := {["office" := "c101"]}]};
     is_builtin_entity := λ name, bool_decide (name = "snips/number");
     get_all_ngrams := ngrams;
     str_lower := lower;
     CLUSTER_USED_PER_LANGUAGES := {["en" := "brown"]};
     sk_fit_transform := fit_transform;
     sk_transform := transform;
     chi2 := pvalues |}.

(** A dataset with one custom entity and one built-in entity. *)
Definition dataset : Dataset :=
  {["the_office" := ["the office"; "Offices"];
    "snips/number" := ["twelve"]]}.

(** A fresh featurizer for English with threshold 2/5. *)
Definition fresh (sublinear : bool) (unknown : option string)
    : @Featurizer world :=
  @__init__ world "en" unknown sublinear None None None (Q2Qc (2 # 5)).

Definition queries : list string :=
  ["lets go to the office"; "turn the lights on"; "go go office"].

Definition labels : list nat := [0; 1; 0]%nat.

(** The featurizer after [fit] on the demo corpus. *)
Definition fitted (sublinear : bool) : @Featurizer world :=
  (@fit world (fresh sublinear None) dataset queries labels).1.

(** Columns for the selection examples: their tokens, the stop words and
    the p-values. *)
Definition tokens : gmap nat string :=
  {[0%nat := "office"; 1%nat := "the"; 2%nat := "to"; 3%nat := "go"]}.

Definition stop_words : gset string := {["the"; "to"]}.

Definition pval : list Qc :=
  [Q2Qc (1 # 10); Q2Qc (3 # 10); Q2Qc (1 # 10); Q2Qc (1 # 2)].

(** A corpus of queries without tokens. *)
Definition blank_queries : list string := [""; "   "].

(** A snapshot with two vocabulary entries and one IDF weight. *)
Definition mismatched_snapshot : FeaturizerDict :=
  {| d_language_code := Some "en";
     d_tfidf_vectorizer :=
       Some {| vd_vocab := Some (Some {["go" := 0%nat; "office" := 1%nat]});
               vd_idf_diag := Some (Some [of_nat 1]) |};
     d_best_features := Some (Some [0%nat]);
     d_pvalue_threshold := Some (Q2Qc (2 # 5));
     d_entity_utterances_to_feature_names := Some ∅;
     d_config := Some {["sublinear_tf" := ABool false]};
     d_unknown_words_replacement_string := Some None |}.

(** The same snapshot without its ['best_features'] key. *)
Definition truncated_snapshot : FeaturizerDict :=
  {| d_language_code := Some "en";
     d_tfidf_vectorizer :=
       Some {| vd_vocab := Some (Some {["go" := 0%nat; "office" := 1%nat]});
               vd_idf_diag := Some (Some [of_nat 1; of_nat 1]) |};
     d_best_features := None;
     d_pvalue_threshold := Some (Q2Qc (2 # 5));
     d_entity_utterances_to_feature_names := Some ∅;
     d_config := Some {["sublinear_tf" := ABool false]};
     d_unknown_words_replacement_string := Some None |}.

(** The demo world without its word-cluster resource: the name configured
    for English is not a key of the clusters. *)
Definition world_without_clusters : Externals :=
  {| FeaturizerConfig := bool;
     config_to_dict := λ b, {["sublinear_tf" := ABool b]};
     config_from_dict := config_of_dict;
     tokenize_light := λ text _, String.words text;
     normalize := lower;
     stem := λ text language,
       if decide (language = "en") then Some (drop_final_s text) else None;
     get_default_sep := λ _, " ";
     get_stop_words := λ _, {["the"; "to"]};
     get_word_clusters := λ _, ∅;
     is_builtin_entity := λ name, bool_decide (name = "snips/number");
     get_all_ngrams := ngrams;
     str_lower := lower;
     CLUSTER_USED_PER_LANGUAGES := {["en" := "brown"]};
     sk_fit_transform := fit_transform;
     sk_transform := transform;
     chi2 := pvalues |}.

(** A [chi2] that, like the original, refuses labels that are not one per
    row. *)
Definition checked_pvalues (X : Matrix) (y : list nat) : Res (list Qc) :=
  if decide (length X = length y) then pvalues X y else Raise ValueError.

Definition world_checking_labels : Externals :=
  {| FeaturizerConfig := bool;
     config_to_dict := λ b, {["sublinear_tf" := ABool b]};
     config_from_dict := config_of_dict;
     tokenize_light := λ text _, String.words text;
     normalize := lower;
     stem := λ text language,
       if decide (language = "en") then Some (drop_final_s text) else None;
     get_default_sep := λ _, " ";
     get_stop_words := λ _, {["the"; "to"]};
     get_word_clusters := λ _, {["brown" := {["office" := "c101"]}]};
     is_builtin_entity := λ name, bool_decide (name = "snips/number");
     get_all_ngrams := ngrams;
     str_lower := lower;
     CLUSTER_USED_PER_LANGUAGES := {["en" := "brown"]};
     sk_fit_transform := fit_transform;
     sk_transform := transform;
     chi2 := checked_pvalues |}.

(** A featurizer that selected column 7 in an earlier fit. *)
Definition previously_fitted : @Featurizer world_checking_labels :=
  @__init__ world_checking_labels "en" None false None (Some [7%nat]) None
    (Q2Qc (2 # 5)).

(** The vectorizer the demo [fit_transform] returns on the corpus
    [["go"]]. *)
Definition go_vectorizer : TfidfVectorizer :=
  {| tokenizer_language := "en";
     init_kwargs := {["sublinear_tf" := ABool false]};
     vocabulary_ := Some {["go" := 0%nat]};
     _tfidf :=
       {| norm := AStr "l2";
          use_idf := ABool true;
          smooth_idf := ABool true;
          sublinear_tf := ABool false;
          _idf_diag := Some [of_nat 1] |} |}.

(** The featurizer [from_dict] builds from [mismatched_snapshot]. *)
Definition mismatched_featurizer : @Featurizer world :=
  @__init__ world "en" None false
    (Some {| tokenizer_language := "en";
             init_kwargs := {["sublinear_tf" := ABool false]};
             vocabulary_ := Some {["go" := 0%nat; "office" := 1%nat]};
             _tfidf :=
               {| norm := AStr "l2";
                  use_idf := ABool true;
                  smooth_idf := ABool true;
                  sublinear_tf := ABool false;
                  _idf_diag := Some [of_nat 1] |} |})
    (Some [0%nat]) (Some ∅) (Q2Qc (2 # 5)).

(** Two lexicons of a snapshot that list the same names in another order,
    one of them with a repetition. *)
Definition listed_once : gmap string (list string) :=
  {["office" := ["entityfeatureroom"; "entityfeaturethe_office"]]}.

Definition listed_twice : gmap string (list string) :=
  {["office" := ["entityfeaturethe_office"; "entityfeatureroom";
                 "entityfeaturethe_office"]]}.

(** *** A world that weighs term counts

    Stand-ins closer to scikit-learn, for the examples that depend on the
    weighting options: the vectorizer applies the sublinear scaling when its
    transformer has [sublinear_tf=True], and [chi2] computes scikit-learn's
    statistic. Rows are not normalized, IDF weights are 1, and two functions
    are rational stand-ins: [sublinear_weight] for [1 + log(c)] and
    [survival] for the chi-squared survival function. *)

(** Stand-in for [1 + log(c)] on a positive count: 1 at 1, and strictly
    between 1 and [c] above; a count of 0 stays 0 (the matrix is sparse). *)
Definition sublinear_weight (c : Qc) : Qc :=
  if decide (c = of_nat 0) then of_nat 0
  else of_nat 1 + (c - of_nat 1) / of_nat 2.

Definition weigh (t : TfidfTransformer) (row : list Qc) : list Qc :=
  match sublinear_tf t with
  | ABool true => sublinear_weight <$> row
  | _ => row
  end.

Definition weighted_fit_transform (v : TfidfVectorizer) (docs : list string)
    : Res (TfidfVectorizer * Matrix) :=
  let vocabulary := build_vocabulary docs in
  if decide (size vocabulary = 0%nat) then Raise ValueError
  else
    Ok ({| tokenizer_language := tokenizer_language v;
           init_kwargs := init_kwargs v;
           vocabulary_ := Some vocabulary;
           _tfidf :=
             {| norm := norm (_tfidf v);
                use_idf := use_idf (_tfidf v);
                smooth_idf := smooth_idf (_tfidf v);
                sublinear_tf := sublinear_tf (_tfidf v);
                _idf_diag := Some (replicate (size vocabulary) (of_nat 1)) |}
         |},
        (λ doc, weigh (_tfidf v) (count_row vocabulary doc)) <$> docs).

Definition weighted_transform (v : TfidfVectorizer) (docs : list string)
    : Res Matrix :=
  match vocabulary_ v, _idf_diag (_tfidf v) with
  | Some vocabulary, Some idf =>
      Ok ((λ doc,
             zip_with Qcmult (weigh (_tfidf v) (count_row vocabulary doc)) idf)
            <$> docs)
  | _, _ => Raise NotFittedError
  end.

(** The rows of [X] labelled [c]. *)
Definition class_rows (X : Matrix) (y : list nat) (c : nat) : Matrix :=
  (filter (λ ry : list Qc * nat, ry.2 = c) (zip X y)).*1.

(** The chi-squared statistic of column [j]: the sum over the classes of
    [(observed - expected)^2 / expected]. *)
Definition chi2_statistic (X : Matrix) (y : list nat) (j : nat) : Qc :=
  let feature_count := column_sum X j in
  foldr (λ c acc,
    let observed := column_sum (class_rows X y c) j in
    let expected :=
      of_nat (length (class_rows X y c)) / of_nat (length X)
      * feature_count in
    (observed - expected) * (observed - expected) / expected + acc)
    (of_nat 0) (remove_dups y).

(** Stand-in for the survival function of the chi-squared distribution:
    decreasing in the statistic, 1 at 0. *)
Definition survival (statistic : Qc) : Qc :=
  of_nat 1 / (of_nat 1 + statistic).

Definition chi2_pvalues (X : Matrix) (y : list nat) : Res (list Qc) :=
  match X with
  | [] => Raise ValueError
  | row :: _ =>
      if decide (length X = length y) then
        Ok ((λ j, survival (chi2_statistic X y j)) <$> seq 0 (length row))
      else Raise ValueError
  end.

Definition world_weighting : Externals :=
  {| FeaturizerConfig := bool;
     config_to_dict := λ b, {["sublinear_tf" := ABool b]};
     config_from_dict := config_of_dict;
     tokenize_light := λ text _, String.words text;
     normalize := lower;
     stem := λ text language,
       if decide (language = "en") then Some (drop_final_s text) else None;
     get_default_sep := λ _, " ";
     get_stop_words := λ _, {["the"; "to"]};
     get_word_clusters := λ _, {["brown" := {["office" := "c101"]}]};
     is_builtin_entity := λ name, bool_decide (name = "snips/number");
     get_all_ngrams := ngrams;
     str_lower := lower;
     CLUSTER_USED_PER_LANGUAGES := {["en" := "brown"]};
     sk_fit_transform := weighted_fit_transform;
     sk_transform := weighted_transform;
     chi2 := chi2_pvalues |}.

(** [Featurizer('en', None, config=FeaturizerConfig(sublinear_tf=True))]
    after [fit] on the demo corpus. *)
Definition fitted_sublinear : @Featurizer world_weighting :=
  (@fit world_weighting
     (@__init__ world_weighting "en" None true None None None (Q2Qc (2 # 5)))
     dataset queries labels).1.

(** A fitted featurizer with two names under one lexicon key, and the two
    snapshots of it that list these names in either order. *)
Definition listed_featurizer : @Featurizer world :=
  @__init__ world "en" None false (Some go_vectorizer) (Some [0%nat])
    (Some {["office" := {["entityfeatureroom"; "entityfeaturethe_office"]}]})
    (Q2Qc (2 # 5)).

Definition listed_snapshot (names : list string) : FeaturizerDict :=
  {| d_language_code := Some "en";
     d_tfidf_vectorizer :=
       Some {| vd_vocab := Some (Some {["go" := 0%nat]});
               vd_idf_diag := Some (Some [of_nat 1]) |};
     d_best_features := Some (Some [0%nat]);
     d_pvalue_threshold := Some (Q2Qc (2 # 5));
     d_entity_utterances_to_feature_names := Some {["office" := names]};
     d_config := Some {["sublinear_tf" := ABool false]};
     d_unknown_words_replacement_string := Some None |}.

End Demo.

(** * Properties *)

(** ** Loops that can raise *)

Lemma foldlM_app {A B} (f : B → A → Res B) acc l1 l2 :
  foldlM f acc (l1 ++ l2) = acc' ← foldlM f acc l1; foldlM f acc' l2.
Proof.
  revert acc. induction l1 as [|x l1 IH]; intros acc; simpl; [done|].
  destruct (f acc x) as [acc'|e]; simpl; [apply IH | done].
Qed.

Lemma foldlM_cons {A B} (f : B → A → Res B) acc x l :
  foldlM f acc (x :: l) = acc' ← f acc x; foldlM f acc' l.
Proof. reflexivity. Qed.

Lemma bind_Ok {A B} (a : A) (f : A → Res B) : Ok a ≫= f = f a.
Proof. reflexivity. Qed.

Lemma bind_Raise {A B} (e : exn) (f : A → Res B) : Raise e ≫= f = Raise e.
Proof. reflexivity. Qed.

Lemma getitem_Some {V} (d : gmap string V) k v :
  d !! k = Some v → getitem d k = Ok v.
Proof. unfold getitem. by intros ->. Qed.

(** Evaluate the binds whose left operand is known. *)
Ltac res_simpl :=
  repeat (progress (cbv beta iota; rewrite ?bind_Ok, ?bind_Raise)).

(** ** Selection: threshold rule and fallback *)

Section selection.
Import Selector.

Lemma elem_of_enumerate {A} (l : list A) i v :
  (i, v) ∈ enumerate l ↔ l !! i = Some v.
Proof.
  unfold enumerate. rewrite elem_of_lookup_imap. split.
  - intros (j & w & [= -> ->] & Hj). done.
  - intros Hi. by exists i, v.
Qed.

Lemma enumerate_fst {A} (l : list A) :
  (enumerate l).*1 = seq 0 (length l).
Proof.
  apply list_eq. intros i. unfold enumerate.
  rewrite list_lookup_fmap, list_lookup_imap.
  destruct (l !! i) as [v|] eqn:Hi; simpl.
  - symmetry. apply lookup_seq. split; [done|]. by eapply lookup_lt_Some.
  - symmetry. apply lookup_seq_ge. by apply lookup_ge_None.
Qed.

(** A comprehension over [enumerate] yields distinct, ascending indices. *)
Lemma comprehension_sublist {A} (P : nat * A → Prop)
    `{∀ x, Decision (P x)} (l : list A) :
  (filter P (enumerate l)).*1 `sublist_of` seq 0 (length l).
Proof.
  rewrite <- enumerate_fst. apply fmap_sublist, sublist_filter.
Qed.

Lemma comprehension_NoDup {A} (P : nat * A → Prop)
    `{∀ x, Decision (P x)} (l : list A) :
  NoDup (filter P (enumerate l)).*1.
Proof.
  eapply sublist_NoDup; [apply NoDup_seq | apply comprehension_sublist].
Qed.

Lemma elem_of_comprehension {A} (P : nat * A → Prop)
    `{∀ x, Decision (P x)} (l : list A) i :
  i ∈ (filter P (enumerate l)).*1 ↔ ∃ v, l !! i = Some v ∧ P (i, v).
Proof.
  rewrite list_elem_of_fmap. split.
  - intros ([j v] & -> & Hin). apply list_elem_of_filter in Hin as [HP Hin].
    apply elem_of_enumerate in Hin. by exists v.
  - intros (v & Hi & HP). exists (i, v). split; [done|].
    apply list_elem_of_filter. split; [done|]. by apply elem_of_enumerate.
Qed.

Lemma elem_of_below_threshold pval thr i :
  i ∈ below_threshold pval thr ↔ ∃ v, pval !! i = Some v ∧ v < thr.
Proof. apply elem_of_comprehension. Qed.

Lemma foldl_min_spec (ps : list Qc) (p : Qc) :
  let m := foldl (λ m v, if decide (v < m) then v else m) p ps in
  m ∈ p :: ps ∧ ∀ w, w ∈ p :: ps → m <= w.
Proof.
  revert p. induction ps as [|q ps IH]; intros p; simpl.
  - split; [by left|]. intros w ->%list_elem_of_singleton. apply Qcle_refl.
  - destruct (IH (if decide (q < p) then q else p)) as [Hin Hle].
    split.
    + case_decide.
      * by right.
      * apply elem_of_cons in Hin as [->|Hin]; [by left|by do 2 right].
    + intros w Hw. 
      assert (Hq : (if decide (q < p) then q else p) <= q).
      { case_decide; [apply Qcle_refl | by apply Qcnot_lt_le]. }
      assert (Hp : (if decide (q < p) then q else p) <= p).
      { case_decide; [by apply Qclt_le_weak | apply Qcle_refl]. }
      assert (Hm : foldl (λ m v, if decide (v < m) then v else m)
                     (if decide (q < p) then q else p) ps
                   <= (if decide (q < p) then q else p)).
      { apply Hle. by left. }
      apply elem_of_cons in Hw as [->|Hw].
      { eapply Qcle_trans; eassumption. }
      apply elem_of_cons in Hw as [->|Hw].
      { eapply Qcle_trans; eassumption. }
      apply Hle. by right.
Qed.

(** [pval.min()] is an element of the array below all others. *)
Lemma np_min_spec (pval : list Qc) (m : Qc) :
  np_min pval = Some m ↔ m ∈ pval ∧ ∀ w, w ∈ pval → m <= w.
Proof.
  destruct pval as [|p ps]; simpl.
  - split; [done|]. intros [Hin _]. by apply elem_of_nil in Hin.
  - destruct (foldl_min_spec ps p) as [Hin Hle]. split.
    + intros [= <-]. done.
    + intros [Hm Hmle]. f_equal. apply Qcle_antisym; [by apply Hle | by apply Hmle].
Qed.

Lemma elem_of_at_minimum pval i :
  i ∈ at_minimum pval ↔
  ∃ v, pval !! i = Some v ∧ ∀ w, w ∈ pval → v <= w.
Proof.
  unfold at_minimum. rewrite elem_of_comprehension. simpl.
  split; intros (v & Hi & Hv); exists v; (split; [done|]).
  - by apply np_min_spec in Hv as [_ ?].
  - apply np_min_spec. split; [|done]. by eapply list_elem_of_lookup_2.
Qed.

Lemma initial_best_features_NoDup pval thr :
  NoDup (initial_best_features pval thr).
Proof.
  unfold initial_best_features. case_bool_decide; apply comprehension_NoDup.
Qed.

(** [C2] Fallback: when no p-value is strictly below the threshold, the
    indices selected before stop-word demotion are exactly the columns whose
    p-value is the minimum of the p-value array. *)
Theorem fallback_selects_minimum (pval : list Qc) (thr : Qc) (i : nat) :
  (∀ j w, pval !! j = Some w → ¬ w < thr) →
  i ∈ initial_best_features pval thr ↔
  ∃ v, pval !! i = Some v ∧ np_min pval = Some v ∧
       ∀ j w, pval !! j = Some w → v <= w.
Proof.
  intros Hnone. unfold initial_best_features.
  assert (Hempty : below_threshold pval thr = []).
  { apply elem_of_nil_inv. intros j Hj.
    apply elem_of_below_threshold in Hj as (w & Hj & Hlt). by eapply Hnone. }
  rewrite bool_decide_eq_true_2 by done.
  rewrite elem_of_at_minimum. split.
  - intros (v & Hi & Hmin). exists v. split; [done|]. split.
    + apply np_min_spec. split; [by eapply list_elem_of_lookup_2 | done].
    + intros j w Hj. apply Hmin. by eapply list_elem_of_lookup_2.
  - intros (v & Hi & _ & Hmin). exists v. split; [done|].
    intros w (j & Hj)%list_elem_of_lookup_1. by eapply Hmin.
Qed.


(** ** Selection: stop-word demotion *)

Lemma list_remove_spec (x : nat) (l : list nat) :
  NoDup l → x ∈ l →
  ∃ l', list_remove x l = Ok l' ∧ l' `sublist_of` l ∧
        ∀ i, i ∈ l' ↔ i ∈ l ∧ i ≠ x.
Proof.
  induction l as [|y l IH]; intros Hnd Hin.
  - by apply elem_of_nil in Hin.
  - apply NoDup_cons in Hnd as [Hy Hnd]. simpl. case_decide as Hxy.
    + subst y. exists l. split; [done|]. split; [by apply sublist_cons|].
      intros i. rewrite elem_of_cons. split; [|tauto].
      intros Hi. split; [by right|]. by intros ->.
    + apply elem_of_cons in Hin as [?|Hin]; [done|].
      destruct (IH Hnd Hin) as (l' & -> & Hsub & Hl'). simpl.
      exists (y :: l'). split; [done|]. split; [by apply sublist_skip|].
      intros i. rewrite !elem_of_cons, Hl'. split.
      * intros [->|[? ?]]; [split; [by left|congruence] | split; [by right|done]].
      * intros [[->|?] ?]; [by left | by right].
Qed.

(** The entry of [feature_names] at a selected index holds the token and the
    p-value of that column. *)
Lemma feature_names_loop_spec (fidx : gmap nat string) (pval : list Qc)
    best (acc names : gmap nat (string * Qc)) :
  foldlM (feature_names_step fidx pval) acc best = Ok names →
  ∀ i w p, names !! i = Some (w, p) ↔
    (i ∈ best ∧ fidx !! i = Some w ∧ pval !! i = Some p) ∨
    (¬ i ∈ best ∧ acc !! i = Some (w, p)).
Proof.
  revert acc. induction best as [|b best IH]; intros acc; simpl.
  - intros [= <-] i w p. rewrite elem_of_nil. tauto.
  - destruct (feature_names_step fidx pval acc b) as [acc'|e] eqn:Hstep;
      simpl; [|done].
    unfold feature_names_step in Hstep.
    destruct (fidx !! b) as [wb|] eqn:Hwb; [|done].
    destruct (pval !! b) as [pb|] eqn:Hpb; [|done].
    injection Hstep as <-.
    intros Hloop i w p. rewrite (IH _ Hloop), elem_of_cons.
    destruct (decide (i = b)) as [->|Hne].
    + rewrite lookup_insert_eq. split.
      * intros [(? & ? & ?)|[? [= <- <-]]]; left; naive_solver.
      * intros [(_ & Hw & Hp)|[Hnot _]]; [|naive_solver].
        destruct (decide (b ∈ best)); [left | right]; naive_solver.
    + rewrite lookup_insert_ne by done. naive_solver.
Qed.

Lemma feature_names_spec fidx (pval : list Qc) best names :
  feature_names fidx pval best = Ok names →
  ∀ i w p, names !! i = Some (w, p) ↔
    i ∈ best ∧ fidx !! i = Some w ∧ pval !! i = Some p.
Proof.
  intros Hn i w p. unfold feature_names in Hn.
  rewrite (feature_names_loop_spec _ _ _ _ _ Hn), lookup_empty. naive_solver.
Qed.

Lemma feature_names_total fidx (pval : list Qc) best :
  (∀ i, i ∈ best → is_Some (fidx !! i) ∧ is_Some (pval !! i)) →
  ∃ names, feature_names fidx pval best = Ok names.
Proof.
  unfold feature_names. generalize (∅ : gmap nat (string * Qc)) as acc.
  induction best as [|b best IH]; intros acc Hcov; simpl; [by eexists|].
  destruct (Hcov b) as [[w Hw] [p Hp]]; [by left|].
  assert (feature_names_step fidx pval acc b = Ok (<[b := (w, p)]> acc)) as ->.
  { unfold feature_names_step. by rewrite Hw, Hp. }
  simpl.
  apply IH. intros i Hi. apply Hcov. by right.
Qed.

Lemma demote_loop_spec stop_words thr kvs best :
  NoDup best → NoDup kvs.*1 → (∀ k v, (k, v) ∈ kvs → k ∈ best) →
  ∃ final, foldlM (demote_step stop_words thr) best kvs = Ok final ∧
    final `sublist_of` best ∧
    ∀ i, i ∈ final ↔ i ∈ best ∧ ¬ demoted stop_words thr kvs i.
Proof.
  revert best. induction kvs as [|[k [w p]] kvs IH]; intros best Hnd Hkeys Hin.
  - exists best. split; [done|]. split; [done|]. intros i.
    unfold demoted. setoid_rewrite elem_of_nil. naive_solver.
  - simpl in Hkeys. apply NoDup_cons in Hkeys as [Hk Hkeys].
    assert (Hkbest : k ∈ best) by (eapply Hin; left).
    assert (Hfresh : ∀ v, (k, v) ∉ kvs).
    { intros v Hv. apply Hk. apply list_elem_of_fmap. by exists (k, v). }
    assert (Hstep : ∃ best', demote_step stop_words thr best (k, (w, p)) = Ok best'
              ∧ best' `sublist_of` best
              ∧ ∀ i, i ∈ best' ↔ i ∈ best ∧
                  ¬ (i = k ∧ w ∈ stop_words ∧ thr / Q2Qc 2 < p)).
    { simpl. repeat case_decide.
      - destruct (list_remove_spec k best Hnd Hkbest) as (l' & -> & Hsub & Hl').
        exists l'. split; [done|]. split; [done|]. intros i. rewrite Hl'.
        unfold not. tauto.
      - exists best. split; [done|]. split; [done|]. intros i. tauto.
      - exists best. split; [done|]. split; [done|]. intros i. tauto. }
    destruct Hstep as (best' & Hstep & Hsub & Hbest').
    destruct (IH best') as (final & Hfinal & Hsub' & Hspec).
    { by apply (sublist_NoDup best' best). }
    { done. }
    { intros k' v' Hk'. apply Hbest'. split; [eapply Hin; by right|].
      intros [-> _]. by eapply Hfresh. }
    exists final. split; [by rewrite foldlM_cons, Hstep|].
    split; [by etrans|]. intros i. rewrite Hspec, Hbest'.
    unfold demoted. setoid_rewrite elem_of_cons. split.
    + intros [[Hi Hnk] Hnd']. split; [done|].
      intros (w' & p' & [[= -> -> ->]|Hin'] & Hw & Hp).
      * apply Hnk. done.
      * apply Hnd'. eauto.
    + intros [Hi Hnd']. split; [split; [done|]|].
      * intros (-> & Hw & Hp). apply Hnd'. exists w, p. eauto.
      * intros (w' & p' & Hin' & Hw & Hp). apply Hnd'. exists w', p'. eauto.
Qed.

(** The whole selection on a vocabulary that names every column. *)
Lemma select_features_spec fidx stop_words (pval : list Qc) thr :
  (∀ i, i < length pval → is_Some (fidx !! i))%nat →
  ∃ final, select_features fidx stop_words pval thr = Ok final ∧
    final `sublist_of` initial_best_features pval thr ∧
    ∀ i, i ∈ final ↔
      i ∈ initial_best_features pval thr ∧
      ¬ ∃ w p, fidx !! i = Some w ∧ pval !! i = Some p ∧
               w ∈ stop_words ∧ thr / Q2Qc 2 < p.
Proof.
  intros Hcov. unfold select_features.
  assert (Hrange : ∀ i, i ∈ initial_best_features pval thr →
            is_Some (pval !! i)).
  { intros i. unfold initial_best_features. case_bool_decide.
    - rewrite elem_of_at_minimum. naive_solver.
    - rewrite elem_of_below_threshold. naive_solver. }
  destruct (feature_names_total fidx pval (initial_best_features pval thr))
    as [names Hnames].
  { intros i Hi. split; [|by apply Hrange].
    apply Hcov. apply lookup_lt_is_Some. by apply Hrange. }
  rewrite Hnames. simpl. unfold demote_stop_words.
  pose proof (feature_names_spec _ _ _ _ Hnames) as Hspec.
  destruct (demote_loop_spec stop_words thr (map_to_list names)
              (initial_best_features pval thr)) as (final & -> & Hsub & Hfinal).
  { apply initial_best_features_NoDup. }
  { apply NoDup_fst_map_to_list. }
  { intros k [w p] Hin. apply elem_of_map_to_list in Hin.
    by apply Hspec in Hin as [? _]. }
  exists final. split; [done|]. split; [done|].
  intros i. rewrite Hfinal. unfold demoted.
  split; intros [Hi Hnd]; (split; [done|]); intros (w & p & H).
  - apply Hnd. exists w, p. rewrite elem_of_map_to_list, Hspec. naive_solver.
  - apply Hnd. exists w, p. rewrite elem_of_map_to_list, Hspec in H. naive_solver.
Qed.

(** [C3] Stop-word demotion: an index selected by the threshold rule or its
    fallback, whose token is a stop word, is dropped from the final selection
    exactly when its p-value is strictly above half the threshold; a stop
    word at or below half the threshold stays, and an index whose token is
    not a stop word is never dropped. *)
Theorem stop_word_demotion fidx stop_words (pval : list Qc) thr :
  (∀ i, i < length pval → is_Some (fidx !! i))%nat →
  ∃ final, select_features fidx stop_words pval thr = Ok final ∧
    (∀ i, i ∈ final → i ∈ initial_best_features pval thr) ∧
    ∀ i w p, i ∈ initial_best_features pval thr →
      fidx !! i = Some w → pval !! i = Some p →
      (w ∈ stop_words → (i ∉ final ↔ thr / Q2Qc 2 < p)) ∧
      (w ∈ stop_words → p <= thr / Q2Qc 2 → i ∈ final) ∧
      (w ∉ stop_words → i ∈ final).
Proof.
  intros Hcov.
  destruct (select_features_spec fidx stop_words pval thr Hcov)
    as (final & Hsel & Hsub & Hfinal).
  exists final. split; [done|]. split.
  { intros i Hi. by apply Hfinal in Hi as [? _]. }
  intros i w p Hi Hw Hp. rewrite !Hfinal. repeat split.
  - intros Hnot. destruct (decide (thr / Q2Qc 2 < p)) as [|Hle]; [done|].
    exfalso. apply Hnot. split; [done|]. intros (w' & p' & ? & ? & ? & ?).
    simplify_eq. done.
  - intros Hlt [_ Hnot]. apply Hnot. by exists w, p.
  - done.
  - intros (w' & p' & ? & ? & ? & Hlt). simplify_eq.
    by eapply Qclt_not_le.
  - done.
  - intros (w' & p' & ? & ? & ? & ?). simplify_eq. done.
Qed.

(** ** Selection: monotonicity in the threshold *)

Lemma half_lt_mono (t1 t2 : Qc) : t2 < t1 → t2 / Q2Qc 2 < t1 / Q2Qc 2.
Proof.
  intros Hlt. unfold Qcdiv. apply Qcmult_lt_compat_r; [done|done].
Qed.

Lemma initial_best_features_below (pval : list Qc) thr :
  (∃ i v, pval !! i = Some v ∧ v < thr) →
  initial_best_features pval thr = below_threshold pval thr.
Proof.
  intros (i & v & Hi & Hv). unfold initial_best_features.
  rewrite bool_decide_eq_false_2; [done|].
  apply (elem_of_not_nil i). apply elem_of_below_threshold. eauto.
Qed.

(** [C8] Monotonicity: with the p-values, the vocabulary and the stop words
    fixed, and some p-value strictly below the smaller threshold (so the
    fallback is not taken), the selection under the smaller threshold is
    contained in, and no longer than, the one under the larger threshold. *)
Theorem selection_monotone fidx stop_words (pval : list Qc) (t1 t2 : Qc) :
  (∀ i, i < length pval → is_Some (fidx !! i))%nat →
  t2 < t1 →
  (∃ i v, pval !! i = Some v ∧ v < t2) →
  ∃ final1 final2,
    select_features fidx stop_words pval t1 = Ok final1 ∧
    select_features fidx stop_words pval t2 = Ok final2 ∧
    (∀ i, i ∈ final2 → i ∈ final1) ∧
    (length final2 ≤ length final1)%nat.
Proof.
  intros Hcov Hlt Hsome.
  destruct (select_features_spec fidx stop_words pval t1 Hcov)
    as (final1 & Hsel1 & _ & Hfinal1).
  destruct (select_features_spec fidx stop_words pval t2 Hcov)
    as (final2 & Hsel2 & Hsub2 & Hfinal2).
  rewrite initial_best_features_below in Hfinal1.
  2:{ destruct Hsome as (i & v & Hi & Hv). exists i, v. split; [done|].
      by eapply Qclt_trans. }
  rewrite initial_best_features_below in Hfinal2, Hsub2 by done.
  assert (Hincl : ∀ i, i ∈ final2 → i ∈ final1).
  { intros i [Hi Hkeep]%Hfinal2. apply Hfinal1. split.
    - apply elem_of_below_threshold in Hi as (v & Hi & Hv).
      apply elem_of_below_threshold. exists v. split; [done|].
      by eapply Qclt_trans.
    - intros (w & p & Hw & Hp & Hstop & Hhalf). apply Hkeep.
      exists w, p. repeat split; try done.
      eapply Qclt_trans; [by apply half_lt_mono | done]. }
  exists final1, final2. repeat split; try done.
  apply submseteq_length, NoDup_submseteq; [|done].
  eapply sublist_NoDup; [|exact Hsub2]. apply comprehension_NoDup.
Qed.

End selection.

(** ** Preprocessing *)

Lemma string_app_assoc (a b c : string) : (a +:+ b) +:+ c = a +:+ (b +:+ c).
Proof.
  induction a as [|x a IH]; [done|].
  change (String x ((a +:+ b) +:+ c) = String x (a +:+ (b +:+ c))).
  by rewrite IH.
Qed.

Lemma string_app_nil_l (a : string) : "" +:+ a = a.
Proof. reflexivity. Qed.

Lemma string_app_nil_r (a : string) : a +:+ "" = a.
Proof.
  induction a as [|x a IH]; [done|].
  change (String x (a +:+ "") = String x a). by rewrite IH.
Qed.

Section preprocessing.
Context `{E : Externals}.

Lemma normalize_stem_spec (t language : string) :
  _normalize_stem t language
  = default (normalize t) (stem (normalize t) language).
Proof. unfold _normalize_stem. by destruct (stem _ _). Qed.

Lemma entity_features_loop (lexicon : gmap string (gset string))
    (ngrams acc : list string) :
  foldlM (λ entity_features ngram,
    match Some lexicon with
    | None => Raise (AttributeError "get")
    | Some lexicon =>
        match lexicon !! ngram with
        | Some names => Ok (entity_features ++ elements names)
        | None => Ok entity_features
        end
    end) acc ngrams
  = Ok (acc ++ (ngram ← ngrams;
                match lexicon !! ngram with
                | Some names => elements names
                | None => []
                end)).
Proof.
  revert acc. induction ngrams as [|ng ngrams IH]; intros acc.
  - simpl. by rewrite app_nil_r.
  - rewrite foldlM_cons. simpl mbind at 2.
    destruct (lexicon !! ng) as [names|]; res_simpl; rewrite IH.
    + by rewrite app_assoc.
    + done.
Qed.

Lemma dataset_entities_features_spec tokens lexicon :
  _get_dataset_entities_features tokens (Some lexicon)
  = Ok (spec_entity_features tokens lexicon).
Proof. apply entity_features_loop. Qed.

Lemma cluster_features_loop (language name : string)
    (clusters : gmap string string) (ngrams acc : list string) :
  get_word_clusters language !! name = Some clusters →
  foldlM (λ cluster_features ngram,
    clusters ← getitem (get_word_clusters language) name;
    match clusters !! str_lower ngram with
    | Some cluster => Ok (cluster_features ++ [cluster])
    | None => Ok cluster_features
    end) acc ngrams
  = Ok (acc ++ omap (λ ngram, clusters !! str_lower ngram) ngrams).
Proof.
  intros Hres. rewrite (getitem_Some _ _ _ Hres). revert acc.
  induction ngrams as [|ng ngrams IH]; intros acc.
  - simpl. by rewrite app_nil_r.
  - rewrite foldlM_cons. res_simpl. simpl omap.
    destruct (clusters !! str_lower ng) as [c|]; res_simpl; rewrite IH.
    + by rewrite <- app_assoc.
    + done.
Qed.

Lemma omap_empty_table (f : string → string) (l : list string) :
  omap (λ x, (∅ : gmap string string) !! f x) l = [].
Proof. induction l as [|x l IH]; simpl; [done|]. by rewrite lookup_empty. Qed.

Lemma word_cluster_features_spec tokens language :
  cluster_resource_available language →
  _get_word_cluster_features tokens language
  = Ok (spec_cluster_features tokens language).
Proof.
  intros Havail.
  unfold _get_word_cluster_features, spec_cluster_features, spec_cluster_table.
  destruct (CLUSTER_USED_PER_LANGUAGES !! language) as [name|] eqn:Hname.
  - case_decide as Hempty.
    + by rewrite omap_empty_table.
    + destruct (Havail name Hname Hempty) as [clusters Hres].
      rewrite Hres. simpl default.
      by rewrite (cluster_features_loop _ _ clusters).
  - by rewrite omap_empty_table.
Qed.

Lemma spec_tokens_eq query language :
  (λ t, _normalize_stem t language) <$> tokenize_light query language
  = spec_normalized_stemmed_tokens query language.
Proof.
  unfold spec_normalized_stemmed_tokens. apply list_fmap_ext.
  intros _ t _. apply normalize_stem_spec.
Qed.

(** [C7] The preprocessed representation of a query is the join, by the
    language's default separator, of its normalized and stemmed tokens,
    then, when there are any, a space and the space-joined sorted entity
    features found by looking up the n-grams of those tokens in the lexicon,
    then, when there are any, a space and the space-joined sorted
    word-cluster features found by looking up the lower-cased n-grams of the
    raw tokens. *)
Theorem preprocess_query_structure (query language : string)
    (lexicon : gmap string (gset string)) :
  cluster_resource_available language →
  _preprocess_query query language (Some lexicon)
  = Ok (spec_preprocessed query language lexicon).
Proof.
  intros Havail. unfold _preprocess_query, spec_preprocessed.
  rewrite (word_cluster_features_spec _ _ Havail). res_simpl.
  rewrite spec_tokens_eq, dataset_entities_features_spec. res_simpl.
  f_equal. unfold spec_block.
  destruct (spec_entity_features _ lexicon) as [|e es];
    destruct (spec_cluster_features _ language) as [|c cs];
    repeat case_decide; try done.
  all: by rewrite ?string_app_nil_l, ?string_app_nil_r, ?string_app_assoc.
Qed.

End preprocessing.

(** ** Fitting *)

Section fitting.
Context `{E : Externals}.

Lemma all_queries_empty_spec language queries :
  all_queries_empty language queries = true ↔
  ∀ q, q ∈ queries → join "" (tokenize_light q language) = "".
Proof.
  unfold all_queries_empty. rewrite forallb_forall. split.
  - intros Hall q Hq. apply list_elem_of_In in Hq.
    by apply Hall, bool_decide_eq_true in Hq.
  - intros Hall q Hq. apply bool_decide_eq_true, Hall.
    by apply list_elem_of_In.
Qed.

(** On a corpus of empty queries, [fit] stops after assigning the lexicon. *)
Lemma fit_empty_corpus self dataset queries y :
  (∀ q, q ∈ queries → join "" (tokenize_light q (language self)) = "") →
  fit self dataset queries y
  = (set_entity_utterances_to_feature_names self
       (Some (fitted_lexicon self dataset)), Ok ReturnNone).
Proof.
  intros Hempty. unfold fit. simpl language.
  by rewrite (proj2 (all_queries_empty_spec _ _) Hempty).
Qed.

(** Whatever path [fit] takes, the lexicon it leaves on [self] is the one
    derived from the dataset. *)
Lemma fit_lexicon self dataset queries y :
  entity_utterances_to_feature_names (fit self dataset queries y).1
  = Some (fitted_lexicon self dataset).
Proof.
  unfold fit. repeat (case_match; simpl; try done).
Qed.

Lemma pop_unknown_word_lookup (s : string)
    (normalized : gmap string (gset string)) :
  pop_unknown_word (Some s) normalized !! s = None.
Proof.
  unfold pop_unknown_word. case_decide as Hin.
  - apply lookup_delete_eq.
  - by apply eq_None_not_Some.
Qed.

(** [C4] Empty-corpus short circuit: when every query tokenizes to an empty
    join, [fit] returns [None] (neither [self] nor an exception) and leaves
    the vectorizer as it was, so an untrained vectorizer stays without a
    vocabulary. *)
Theorem empty_corpus_short_circuit self dataset queries y :
  (∀ q, q ∈ queries → join "" (tokenize_light q (language self)) = "") →
  (fit self dataset queries y).2 = Ok ReturnNone ∧
  tfidf_vectorizer (fit self dataset queries y).1 = tfidf_vectorizer self ∧
  (vocabulary_ (tfidf_vectorizer self) = None →
   vocabulary_ (tfidf_vectorizer (fit self dataset queries y).1) = None).
Proof.
  intros Hempty. rewrite (fit_empty_corpus _ _ _ _ Hempty). simpl. done.
Qed.

(** [C6] Unknown-word exclusion: when the featurizer has an unknown-word
    replacement string, the lexicon [fit] leaves on [self] has no entry
    under that string, whatever the dataset, and a query whose n-grams all
    equal that string gets no entity feature. *)
Theorem unknown_word_excluded self dataset queries y (s : string) :
  unknown_words_replacement_string self = Some s →
  ∃ lexicon,
    entity_utterances_to_feature_names (fit self dataset queries y).1
      = Some lexicon ∧
    lexicon !! s = None ∧
    ∀ tokens, (∀ ngram, ngram ∈ get_all_ngrams tokens → ngram = s) →
      _get_dataset_entities_features tokens (Some lexicon) = Ok [].
Proof.
  intros Hunknown. exists (fitted_lexicon self dataset).
  split; [apply fit_lexicon|].
  assert (Hs : fitted_lexicon self dataset !! s = None).
  { unfold fitted_lexicon. rewrite Hunknown. apply pop_unknown_word_lookup. }
  split; [done|]. intros tokens Hall.
  rewrite dataset_entities_features_spec. f_equal.
  unfold spec_entity_features.
  induction (get_all_ngrams tokens) as [|ng ngs IH]; [done|].
  rewrite bind_cons, (Hall ng), Hs by (by left). simpl.
  apply IH. intros ngram Hin. apply Hall. by right.
Qed.

(** [C9] On a corpus of empty queries [fit_transform] raises: [fit] returns
    [None], and [transform] is looked up on that result. *)
Theorem fit_transform_empty_corpus_raises self dataset queries y :
  (∀ q, q ∈ queries → join "" (tokenize_light q (language self)) = "") →
  (fit_transform self dataset queries y).2
  = Raise (AttributeError "transform").
Proof.
  intros Hempty. unfold fit_transform.
  by rewrite (fit_empty_corpus _ _ _ _ Hempty).
Qed.

(** [C10] On the empty-corpus path [fit] is not atomic: it has replaced the
    lexicon of [self], whatever it was, by the one derived from the new
    dataset, while the selected features, the threshold and the vectorizer
    (its vocabulary and IDF weights) are as before. *)
Theorem fit_empty_corpus_replaces_lexicon self dataset queries y previous :
  (∀ q, q ∈ queries → join "" (tokenize_light q (language self)) = "") →
  let self0 := set_entity_utterances_to_feature_names self previous in
  let self' := (fit self0 dataset queries y).1 in
  (fit self0 dataset queries y).2 = Ok ReturnNone ∧
  entity_utterances_to_feature_names self'
    = Some (fitted_lexicon self dataset) ∧
  best_features self' = best_features self ∧
  pvalue_threshold self' = pvalue_threshold self ∧
  tfidf_vectorizer self' = tfidf_vectorizer self ∧
  vocabulary_ (tfidf_vectorizer self') = vocabulary_ (tfidf_vectorizer self) ∧
  _idf_diag (_tfidf (tfidf_vectorizer self'))
    = _idf_diag (_tfidf (tfidf_vectorizer self)).
Proof.
  intros Hempty self0 self'. subst self' self0.
  rewrite fit_empty_corpus by done. simpl. done.
Qed.

End fitting.

(** ** Serialization *)

Section serialization.
Context `{E : Externals}.

(** Turning every value set of the lexicon into a list and back changes
    nothing. *)
Lemma lexicon_roundtrip (lexicon : gmap string (gset string)) :
  list_to_set <$> (elements <$> lexicon) = lexicon.
Proof.
  rewrite <- map_fmap_compose. rewrite <- (map_fmap_id lexicon) at 2.
  apply map_fmap_ext. intros k names _. simpl.
  apply list_to_set_elements_L.
Qed.

(** What a round trip through [to_dict] and [from_dict] does to a fitted
    featurizer: everything is restored but the vectorizer, which is
    [rebuilt_vectorizer]. *)
Lemma roundtrip_state (self : Featurizer) vocab idf lexicon :
  vocabulary_ (tfidf_vectorizer self) = Some vocab →
  _idf_diag (_tfidf (tfidf_vectorizer self)) = Some idf →
  entity_utterances_to_feature_names self = Some lexicon →
  config_from_dict (config_to_dict (config self)) = Ok (config self) →
  to_dict self ≫= from_dict
  = Ok (set_tfidf_vectorizer self (rebuilt_vectorizer self)).
Proof.
  intros Hvocab Hidf Hlex Hconfig. unfold to_dict.
  rewrite Hvocab, Hidf, Hlex. res_simpl.
  unfold from_dict, to_dict_result, key. simpl. res_simpl.
  rewrite Hconfig. res_simpl.
  unfold _deserialize_tfidf_vectorizer, key. simpl. res_simpl.
  f_equal. unfold __init__, set_tfidf_vectorizer, rebuilt_vectorizer.
  rewrite lexicon_roundtrip, Hvocab, Hidf, Hlex. simpl.
  destruct self; simpl in *. by rewrite lookup_empty.
Qed.

(** The round trip preserves [transform] when the vectorizer of [self] was
    built from its language and configuration and its transformer has the
    default weighting options. *)
Lemma roundtrip_transform_default_options (self : Featurizer)
    vocab idf lexicon (queries : list string) :
  vocabulary_ (tfidf_vectorizer self) = Some vocab →
  _idf_diag (_tfidf (tfidf_vectorizer self)) = Some idf →
  entity_utterances_to_feature_names self = Some lexicon →
  config_from_dict (config_to_dict (config self)) = Ok (config self) →
  tokenizer_language (tfidf_vectorizer self) = language self →
  init_kwargs (tfidf_vectorizer self) = config_to_dict (config self) →
  default_options (_tfidf (tfidf_vectorizer self)) →
  ∃ self', to_dict self ≫= from_dict = Ok self' ∧
    transform self' queries = transform self queries.
Proof.
  intros Hvocab Hidf Hlex Hconfig Hlang Hkw (Hnorm & Huse & Hsmooth & Hsub).
  eexists. split; [by eapply roundtrip_state|].
  assert (rebuilt_vectorizer self = tfidf_vectorizer self) as ->.
  { unfold rebuilt_vectorizer.
    destruct self as [c l [tl kw v [n u sm sb i]] b t lx un].
    simpl in *. by subst. }
  by destruct self.
Qed.

(** The round trip of a fitted featurizer, with the hypotheses in the form
    a computation discharges. *)
Lemma roundtrip_rebuilds_vectorizer (self : Featurizer) :
  is_Some (vocabulary_ (tfidf_vectorizer self)) →
  is_Some (_idf_diag (_tfidf (tfidf_vectorizer self))) →
  is_Some (entity_utterances_to_feature_names self) →
  config_from_dict (config_to_dict (config self)) = Ok (config self) →
  to_dict self ≫= from_dict
  = Ok (set_tfidf_vectorizer self (rebuilt_vectorizer self)).
Proof.
  intros [vocab Hvocab] [idf Hidf] [lexicon Hlex] Hconfig.
  by eapply roundtrip_state.
Qed.

(** What [transform] computes after the round trip: the queries are
    preprocessed as before and the same columns are kept, but the matrix
    comes from a vectorizer whose transformer has the default options. *)
Lemma roundtrip_transform_default_weighting (self : Featurizer)
    (queries : list string) :
  is_Some (vocabulary_ (tfidf_vectorizer self)) →
  is_Some (_idf_diag (_tfidf (tfidf_vectorizer self))) →
  is_Some (entity_utterances_to_feature_names self) →
  config_from_dict (config_to_dict (config self)) = Ok (config self) →
  ∃ self', to_dict self ≫= from_dict = Ok self' ∧
    sublinear_tf (_tfidf (tfidf_vectorizer self')) = ABool false ∧
    transform self' queries
    = (preprocessed_queries ← preprocess_queries self queries;
       X_train_tfidf ←
         sk_transform (rebuilt_vectorizer self) preprocessed_queries;
       select_columns X_train_tfidf (best_features self)).
Proof.
  intros Hvocab Hidf Hlex Hconfig.
  exists (set_tfidf_vectorizer self (rebuilt_vectorizer self)).
  split; [by apply roundtrip_rebuilds_vectorizer|].
  split; [done|]. by destruct self.
Qed.

(** The round trip through [to_dict] and [from_dict] does not restore the
    weighting options of a featurizer built with [sublinear_tf=True]: the
    rebuilt vectorizer carries a transformer with [sublinear_tf=False], so
    the restored featurizer is not the original one and its [transform] is
    computed with other weighting options, although the selected columns
    and the entity lexicon are restored. *)
Theorem roundtrip_drops_sublinear_tf (self : Featurizer) :
  is_Some (vocabulary_ (tfidf_vectorizer self)) →
  is_Some (_idf_diag (_tfidf (tfidf_vectorizer self))) →
  is_Some (entity_utterances_to_feature_names self) →
  config_from_dict (config_to_dict (config self)) = Ok (config self) →
  sublinear_tf (_tfidf (tfidf_vectorizer self)) = ABool true →
  ∃ self',
    to_dict self ≫= from_dict = Ok self' ∧
    sublinear_tf (_tfidf (tfidf_vectorizer self')) = ABool false ∧
    tfidf_vectorizer self' ≠ tfidf_vectorizer self ∧
    self' ≠ self ∧
    best_features self' = best_features self ∧
    entity_utterances_to_feature_names self'
      = entity_utterances_to_feature_names self.
Proof.
  intros [vocab Hvocab] [idf Hidf] [lexicon Hlex] Hconfig Hsub.
  exists (set_tfidf_vectorizer self (rebuilt_vectorizer self)).
  split; [by eapply roundtrip_state|].
  assert (Hreset : sublinear_tf (_tfidf (rebuilt_vectorizer self))
                   = ABool false).
  { unfold rebuilt_vectorizer. rewrite Hvocab, Hidf. simpl.
    unfold new_TfidfTransformer. simpl. by rewrite ?lookup_empty. }
  assert (Hvec : rebuilt_vectorizer self ≠ tfidf_vectorizer self).
  { intros Heq. rewrite Heq, Hsub in Hreset. discriminate. }
  split; [by destruct self|].
  split; [by destruct self|].
  split; [|by destruct self].
  intros Heq. apply Hvec.
  apply (f_equal tfidf_vectorizer) in Heq. by destruct self.
Qed.

(** [C5], amended: a snapshot that lacks a key [from_dict] reads makes
    [from_dict] raise instead of returning an instance; the sizes of the
    vocabulary and of the IDF sequence are not compared. *)
Theorem from_dict_missing_key (d : FeaturizerDict) :
  missing_required_key d → raises (from_dict d).
Proof.
  destruct d as [lang vec best thr lex cfg unk].
  unfold missing_required_key, from_dict, key. simpl.
  intros Hmissing.
  destruct lang as [lang|]; [|done]. res_simpl.
  destruct cfg as [cfg|]; [|done]. res_simpl.
  destruct (config_from_dict cfg) as [c|e]; [|done]. res_simpl.
  destruct vec as [[vocab idf]|]; [|done]. res_simpl.
  unfold _deserialize_tfidf_vectorizer, key. simpl.
  destruct vocab as [vocab|]; [|done]. res_simpl.
  assert (Hrest : lex = None ∨ thr = None ∨ best = None ∨ unk = None ∨
            (∃ v, vocab = Some v ∧ idf = None)).
  { destruct Hmissing as [?|[?|[?|[(vd & ? & ?)|[(vd & v & ? & ? & ?)|H]]]]];
      simplify_eq/=; [eauto 10|]. tauto. }
  clear Hmissing.
  destruct vocab as [v|], idf as [[idf|]|]; res_simpl; try done;
    try (destruct Hrest as [?|[?|[?|[?|(? & ? & ?)]]]]; simplify_eq/=);
    try (destruct lex; [|done]); res_simpl;
    try (destruct thr; [|done]); res_simpl;
    try (destruct best; [|done]); res_simpl;
    try (destruct unk; [|done]); res_simpl; try done.
Qed.

End serialization.

(** ** The properties on concrete inputs *)

(** [C5] as stated fails: a snapshot whose vocabulary has two entries and
    whose IDF sequence has one is accepted, and the instance returned has a
    vocabulary and an IDF sequence of different sizes. *)
Lemma mismatched_snapshot_accepted :
  cardinality_mismatch Demo.mismatched_snapshot ∧
  ¬ raises (@from_dict Demo.world Demo.mismatched_snapshot) ∧
  ∃ self, @from_dict Demo.world Demo.mismatched_snapshot = Ok self ∧
    ¬ vectorizer_consistent (tfidf_vectorizer self).
Proof.
  split.
  { eexists _, _, _. repeat split; [reflexivity..|]. by vm_compute. }
  split; [by vm_compute|].
  eexists. split; [reflexivity|]. by vm_compute.
Qed.

(** ** Instances of the properties *)

Lemma demo_is_Some {A} (x : option A) : bool_decide (is_Some x) → is_Some x.
Proof. apply bool_decide_unpack. Defined.

Lemma roundtrip_drops_sublinear_tf_witness :
  ∃ self',
    @to_dict Demo.world (Demo.fitted true) ≫= @from_dict Demo.world
      = Ok self' ∧
    sublinear_tf (_tfidf (tfidf_vectorizer self')) = ABool false ∧
    tfidf_vectorizer self' ≠ tfidf_vectorizer (Demo.fitted true) ∧
    self' ≠ Demo.fitted true ∧
    best_features self' = best_features (Demo.fitted true) ∧
    entity_utterances_to_feature_names self'
      = entity_utterances_to_feature_names (Demo.fitted true).
Proof.
  apply (@roundtrip_drops_sublinear_tf Demo.world).
  - apply demo_is_Some. vm_compute. exact I.
  - apply demo_is_Some. vm_compute. exact I.
  - apply demo_is_Some. vm_compute. exact I.
  - vm_compute. reflexivity.
  - vm_compute. reflexivity.
Defined.

Lemma result_matrix_decide (m : Res Matrix) (X : Matrix) :
  Is_true match m with
          | Ok X0 => bool_decide (X0 = X)
          | Raise _ => false
          end →
  m = Ok X.
Proof.
  destruct m as [X0|e]; [|done].
  intros HX. apply bool_decide_unpack in HX. by subst.
Qed.

(** In the world that weighs term counts, the featurizer fitted on the demo
    corpus with [sublinear_tf=True] selects the columns of "turn", "light"
    and "on". *)
Example fitted_sublinear_columns :
  @best_features Demo.world_weighting Demo.fitted_sublinear
  = Some [7%nat; 8%nat; 9%nat].
Proof. vm_compute. reflexivity. Qed.

(** [C1] The round trip through [to_dict] and [from_dict] changes what
    [transform] returns. For the featurizer fitted with [sublinear_tf=True]
    on the demo corpus and the query "turn turn on", [transform] weighs the
    two occurrences of "turn" sublinearly and returns the row
    [3/2; 0; 1]; the featurizer rebuilt from its snapshot has a transformer
    with [sublinear_tf=False], counts them linearly and returns
    [2; 0; 1]. *)
Theorem roundtrip_changes_transform :
  ∃ self',
    @to_dict Demo.world_weighting Demo.fitted_sublinear
      ≫= @from_dict Demo.world_weighting = Ok self' ∧
    @transform Demo.world_weighting Demo.fitted_sublinear ["turn turn on"]
      = Ok [[Q2Qc (3 # 2); Q2Qc 0; Q2Qc 1]] ∧
    @transform Demo.world_weighting self' ["turn turn on"]
      = Ok [[Q2Qc 2; Q2Qc 0; Q2Qc 1]] ∧
    @transform Demo.world_weighting self' ["turn turn on"]
      ≠ @transform Demo.world_weighting Demo.fitted_sublinear
          ["turn turn on"].
Proof.
  exists (@set_tfidf_vectorizer Demo.world_weighting Demo.fitted_sublinear
            (@rebuilt_vectorizer Demo.world_weighting
               Demo.fitted_sublinear)).
  assert (Horiginal :
    @transform Demo.world_weighting Demo.fitted_sublinear ["turn turn on"]
    = Ok [[Q2Qc (3 # 2); Q2Qc 0; Q2Qc 1]]).
  { apply result_matrix_decide. vm_compute. exact I. }
  assert (Hrebuilt :
    @transform Demo.world_weighting
      (@set_tfidf_vectorizer Demo.world_weighting Demo.fitted_sublinear
         (@rebuilt_vectorizer Demo.world_weighting Demo.fitted_sublinear))
      ["turn turn on"]
    = Ok [[Q2Qc 2; Q2Qc 0; Q2Qc 1]]).
  { apply result_matrix_decide. vm_compute. exact I. }
  split; [|split; [done|split; [done|]]].
  - apply (@roundtrip_rebuilds_vectorizer Demo.world_weighting).
    + apply demo_is_Some. vm_compute. exact I.
    + apply demo_is_Some. vm_compute. exact I.
    + apply demo_is_Some. vm_compute. exact I.
    + vm_compute. reflexivity.
  - rewrite Horiginal, Hrebuilt. intros [=].
Qed.

Lemma fallback_selects_minimum_witness :
  1%nat ∈ Selector.initial_best_features Demo.pval (Q2Qc (1 # 20)) ↔
  ∃ v, Demo.pval !! 1%nat = Some v ∧ Selector.np_min Demo.pval = Some v ∧
       ∀ j w, Demo.pval !! j = Some w → v <= w.
Proof.
  apply fallback_selects_minimum. intros j w Hj.
  repeat (destruct j as [|j]; [injection Hj as <-; by vm_compute|]).
  done.
Defined.

(** The fallback can select several columns: the two columns tied at the
    minimum are both selected. *)
Example fallback_selects_ties :
  Selector.initial_best_features
    [Q2Qc (1 # 2); Q2Qc (2 # 5); Q2Qc (9 # 10); Q2Qc (2 # 5)] (Q2Qc (2 # 5))
  = [1%nat; 3%nat].
Proof. by vm_compute. Qed.

Lemma demo_tokens_cover i :
  (i < length Demo.pval)%nat → is_Some (Demo.tokens !! i).
Proof.
  intros Hi. repeat (destruct i as [|i]; [by eexists|]). simpl in Hi. lia.
Defined.

Lemma stop_word_demotion_witness :
  ∃ final,
    Selector.select_features Demo.tokens Demo.stop_words Demo.pval
      (Q2Qc (2 # 5)) = Ok final ∧
    (∀ i, i ∈ final →
       i ∈ Selector.initial_best_features Demo.pval (Q2Qc (2 # 5))) ∧
    ∀ i w p, i ∈ Selector.initial_best_features Demo.pval (Q2Qc (2 # 5)) →
      Demo.tokens !! i = Some w → Demo.pval !! i = Some p →
      (w ∈ Demo.stop_words → (i ∉ final ↔ Q2Qc (2 # 5) / Q2Qc 2 < p)) ∧
      (w ∈ Demo.stop_words → p <= Q2Qc (2 # 5) / Q2Qc 2 → i ∈ final) ∧
      (w ∉ Demo.stop_words → i ∈ final).
Proof. apply stop_word_demotion. exact demo_tokens_cover. Defined.

(** On the demo columns the stop word "the" (p-value 3/10, above half the
    threshold 2/5) is dropped and the stop word "to" (p-value 1/10) stays. *)
Example stop_word_demotion_demo :
  Selector.initial_best_features Demo.pval (Q2Qc (2 # 5))
    = [0%nat; 1%nat; 2%nat] ∧
  Selector.select_features Demo.tokens Demo.stop_words Demo.pval
    (Q2Qc (2 # 5)) = Ok [0%nat; 2%nat].
Proof. split; by vm_compute. Qed.

Lemma selection_monotone_witness :
  ∃ final1 final2,
    Selector.select_features Demo.tokens Demo.stop_words Demo.pval
      (Q2Qc (2 # 5)) = Ok final1 ∧
    Selector.select_features Demo.tokens Demo.stop_words Demo.pval
      (Q2Qc (1 # 5)) = Ok final2 ∧
    (∀ i, i ∈ final2 → i ∈ final1) ∧
    (length final2 ≤ length final1)%nat.
Proof.
  apply selection_monotone.
  - exact demo_tokens_cover.
  - by vm_compute.
  - exists 0%nat, (Q2Qc (1 # 10)). split; [reflexivity | by vm_compute].
Defined.

Lemma demo_blank_queries q :
  q ∈ Demo.blank_queries →
  join "" (@tokenize_light Demo.world q
             (@language Demo.world (Demo.fresh false None))) = "".
Proof.
  intros Hq. unfold Demo.blank_queries in Hq.
  repeat (apply elem_of_cons in Hq as [->|Hq]; [reflexivity|]).
  by apply elem_of_nil in Hq.
Defined.

Lemma empty_corpus_short_circuit_witness :
  let self := Demo.fresh false None in
  (@fit Demo.world self Demo.dataset Demo.blank_queries []).2
    = Ok ReturnNone ∧
  tfidf_vectorizer
    (@fit Demo.world self Demo.dataset Demo.blank_queries []).1
    = tfidf_vectorizer self ∧
  (vocabulary_ (tfidf_vectorizer self) = None →
   vocabulary_ (tfidf_vectorizer
     (@fit Demo.world self Demo.dataset Demo.blank_queries []).1) = None).
Proof.
  intros self. apply (@empty_corpus_short_circuit Demo.world).
  exact demo_blank_queries.
Defined.

Lemma unknown_word_excluded_witness :
  let self := Demo.fresh false (Some "office") in
  ∃ lexicon,
    entity_utterances_to_feature_names
      (@fit Demo.world self Demo.dataset Demo.queries Demo.labels).1
      = Some lexicon ∧
    lexicon !! "office" = None ∧
    ∀ tokens,
      (∀ ngram, ngram ∈ @get_all_ngrams Demo.world tokens →
         ngram = "office") →
      @_get_dataset_entities_features Demo.world tokens (Some lexicon)
        = Ok [].
Proof.
  intros self. apply (@unknown_word_excluded Demo.world). reflexivity.
Defined.

(** Without the unknown-word string the example "Offices" of the dataset
    puts the key "office" in the lexicon; with it the key is gone. *)
Example unknown_word_excluded_demo :
  is_Some (@fitted_lexicon Demo.world (Demo.fresh false None) Demo.dataset
             !! "office") ∧
  @fitted_lexicon Demo.world (Demo.fresh false (Some "office")) Demo.dataset
    !! "office" = None.
Proof.
  split; [apply demo_is_Some|]; vm_compute; [exact I | reflexivity].
Qed.

Lemma demo_cluster_resource_available :
  @cluster_resource_available Demo.world "en".
Proof.
  intros name Hname _. vm_compute in Hname. injection Hname as <-.
  by eexists.
Defined.

Lemma preprocess_query_structure_witness :
  @_preprocess_query Demo.world "go to the office" "en"
    (Some (@fitted_lexicon Demo.world (Demo.fresh false None) Demo.dataset))
  = Ok (@spec_preprocessed Demo.world "go to the office" "en"
          (@fitted_lexicon Demo.world (Demo.fresh false None) Demo.dataset)).
Proof.
  apply (@preprocess_query_structure Demo.world).
  exact demo_cluster_resource_available.
Defined.

(** Entity injection on the demo dataset: the query mentions the entity
    example "the office" and gets the entity pseudo-token, then the
    word-cluster label. *)
Example preprocess_query_demo :
  @_preprocess_query Demo.world "go to the office" "en"
    (Some (@fitted_lexicon Demo.world (Demo.fresh false None) Demo.dataset))
  = Ok "go to the office entityfeaturethe_office entityfeaturethe_office c101".
Proof. by vm_compute. Qed.

Lemma fit_transform_empty_corpus_raises_witness :
  (@fit_transform Demo.world (Demo.fresh false None) Demo.dataset
     Demo.blank_queries []).2
  = Raise (AttributeError "transform").
Proof.
  apply (@fit_transform_empty_corpus_raises Demo.world).
  exact demo_blank_queries.
Defined.

Lemma fit_empty_corpus_replaces_lexicon_witness :
  let self0 :=
    @set_entity_utterances_to_feature_names Demo.world
      (Demo.fitted false) (Some ∅) in
  let self' :=
    (@fit Demo.world self0 Demo.dataset Demo.blank_queries []).1 in
  (@fit Demo.world self0 Demo.dataset Demo.blank_queries []).2
    = Ok ReturnNone ∧
  entity_utterances_to_feature_names self'
    = Some (@fitted_lexicon Demo.world (Demo.fitted false) Demo.dataset) ∧
  best_features self' = best_features (Demo.fitted false) ∧
  pvalue_threshold self' = pvalue_threshold (Demo.fitted false) ∧
  tfidf_vectorizer self' = tfidf_vectorizer (Demo.fitted false) ∧
  vocabulary_ (tfidf_vectorizer self')
    = vocabulary_ (tfidf_vectorizer (Demo.fitted false)) ∧
  _idf_diag (_tfidf (tfidf_vectorizer self'))
    = _idf_diag (_tfidf (tfidf_vectorizer (Demo.fitted false))).
Proof.
  apply (@fit_empty_corpus_replaces_lexicon Demo.world).
  intros q Hq. unfold Demo.blank_queries in Hq.
  repeat (apply elem_of_cons in Hq as [->|Hq]; [reflexivity|]).
  by apply elem_of_nil in Hq.
Defined.

Lemma from_dict_missing_key_witness :
  raises (@from_dict Demo.world Demo.truncated_snapshot).
Proof.
  apply (@from_dict_missing_key Demo.world).
  unfold missing_required_key. do 7 right. left. reflexivity.
Defined.

(** * Further properties of the module *)

(** ** Feature selection *)

Section selection_invariants.
Import Selector.

Lemma np_min_is_Some (pval : list Qc) : pval ≠ [] → is_Some (np_min pval).
Proof. destruct pval; [done|]. by eexists. Qed.

(** Lines 76-80 of [fit] on p-values that are numbers: as soon as there is
    a column, the threshold rule with its fallback selects at least one,
    whatever the threshold. *)
Lemma initial_best_features_nonempty (pval : list Qc) (thr : Qc) :
  pval ≠ [] → initial_best_features pval thr ≠ [].
Proof.
  intros Hne. unfold initial_best_features.
  case_bool_decide as Hbelow; [|done].
  destruct (np_min_is_Some pval Hne) as [m Hm].
  pose proof Hm as Hspec. apply np_min_spec in Hspec as [Hin Hle].
  apply list_elem_of_lookup_1 in Hin as [i Hi].
  assert (i ∈ at_minimum pval) as Hi'.
  { apply elem_of_at_minimum. eauto. }
  intros Heq. rewrite Heq in Hi'. by apply elem_of_nil in Hi'.
Qed.

Lemma filter_fmap_comm {A B} (f : A → B) (P : B → Prop)
    `{∀ y, Decision (P y)} (l : list A) :
  filter P (f <$> l) = f <$> filter (λ x, P (f x)) l.
Proof.
  induction l as [|x l IH]; [done|].
  rewrite fmap_cons, !filter_cons.
  destruct (decide (P (f x))); simpl; by rewrite IH.
Qed.

Lemma comprehension_fmap {A B} (f : A → B) (P : nat * B → Prop)
    `{∀ x, Decision (P x)} (l : list A) :
  (filter P (enumerate (f <$> l))).*1
  = (filter (λ iv : nat * A, P (iv.1, f iv.2)) (enumerate l)).*1.
Proof.
  unfold enumerate. rewrite imap_fmap.
  assert (Himap : imap (λ n, (λ v, (n, v)) ∘ f) l
                  = (λ iv : nat * A, (iv.1, f iv.2))
                      <$> imap (λ i v, (i, v)) l).
  { rewrite fmap_imap. by apply imap_ext. }
  rewrite Himap, filter_fmap_comm, <- list_fmap_compose.
  by apply list_fmap_ext.
Qed.

Lemma is_minimum_number (pval : list Qc) (q : Qc) :
  pval ≠ [] →
  is_minimum (Some <$> pval) (Some q) = true ↔ np_min pval = Some q.
Proof.
  intros Hne. unfold is_minimum, np_min_nan.
  pose proof (mapM_fmap_Some id Some pval (λ _, eq_refl)) as Hnums.
  destruct pval as [|p pval]; [done|].
  rewrite fmap_cons in Hnums |- *. rewrite Hnums.
  change (Some (p :: pval) ≫= np_min) with (np_min (p :: pval)).
  destruct (np_min (p :: pval)) as [m|]; simpl.
  - rewrite bool_decide_eq_true. split; [by intros ->|by intros [= ->]].
  - done.
Qed.

(** On p-values that are all numbers, lines 76-80 select the columns that
    [initial_best_features] selects. *)
Lemma nan_free_selection (pval : list Qc) (thr : Qc) :
  initial_best_features_nan (Some <$> pval) thr
  = initial_best_features pval thr.
Proof.
  unfold initial_best_features_nan, initial_best_features.
  assert (Hbelow : below_threshold_nan (Some <$> pval) thr
                   = below_threshold pval thr).
  { unfold below_threshold_nan, below_threshold.
    rewrite comprehension_fmap. f_equal. apply list_filter_iff.
    intros [i q]. simpl. by rewrite bool_decide_eq_true. }
  rewrite Hbelow. case_bool_decide; [|done].
  unfold at_minimum_nan, at_minimum.
  rewrite comprehension_fmap. f_equal.
  destruct (decide (pval = [])) as [->|Hne]; [done|].
  apply list_filter_iff. intros [i q].
  apply (is_minimum_number pval q Hne).
Qed.

Lemma below_threshold_nan_nil (pval : list (option Qc)) (thr : Qc) :
  below_threshold_nan pval thr = [] ↔
  ∀ q, Some q ∈ pval → ¬ q < thr.
Proof.
  split.
  - intros Hnil q Hq Hlt. apply list_elem_of_lookup_1 in Hq as [i Hi].
    assert (i ∈ below_threshold_nan pval thr) as Hin.
    { apply elem_of_comprehension. exists (Some q). split; [done|].
      simpl. by apply bool_decide_eq_true. }
    rewrite Hnil in Hin. by apply elem_of_nil in Hin.
  - intros Hall. apply elem_of_nil_inv. intros i Hi.
    apply elem_of_comprehension in Hi as (v & Hv & Hlt). simpl in Hlt.
    destruct v as [q|]; [|done]. apply bool_decide_eq_true in Hlt.
    apply (Hall q); [|done]. by eapply list_elem_of_lookup_2.
Qed.

Lemma at_minimum_nan_nil (pval : list (option Qc)) :
  at_minimum_nan pval = [] ↔ pval = [] ∨ None ∈ pval.
Proof.
  split.
  - intros Hnil. destruct pval as [|v0 pval0] eqn:Hpval; [by left|].
    rewrite <- Hpval in *. right.
    destruct (mapM id pval) as [nums|] eqn:Hnums.
    + exfalso. apply mapM_Some in Hnums.
      assert (Hne : nums ≠ []).
      { intros ->. apply Forall2_length in Hnums. by subst pval. }
      destruct (np_min_is_Some nums Hne) as [m Hm].
      pose proof Hm as Hspec. apply np_min_spec in Hspec as [Hin _].
      apply list_elem_of_lookup_1 in Hin as [i Hi].
      destruct (Forall2_lookup_r _ _ _ _ _ Hnums Hi) as (v & Hv & Hvm).
      simpl in Hvm. subst v.
      assert (i ∈ at_minimum_nan pval) as Hmin.
      { apply elem_of_comprehension. exists (Some m). split; [done|].
        simpl. unfold is_minimum, np_min_nan. rewrite Hpval, <- Hpval.
        apply mapM_Some in Hnums. rewrite Hnums. simpl. rewrite Hm. simpl.
        by apply bool_decide_eq_true. }
      rewrite Hnil in Hmin. by apply elem_of_nil in Hmin.
    + apply mapM_None in Hnums. apply Exists_exists in Hnums
        as (v & Hv & Hnone). simpl in Hnone. by subst v.
  - intros [->|Hnan]; [done|].
    apply elem_of_nil_inv. intros i Hi.
    apply elem_of_comprehension in Hi as (v & Hv & Hmin). simpl in Hmin.
    unfold is_minimum, np_min_nan in Hmin.
    destruct pval as [|v0 pval0] eqn:Hpval; [done|]. rewrite <- Hpval in *.
    assert (Hnums : mapM id pval = None).
    { apply mapM_None. apply Exists_exists. by exists None. }
    rewrite Hnums in Hmin. simpl in Hmin. by destruct v.
Qed.

(** [X1] Lines 76-80 of [fit], with p-values that can be NaN: the threshold
    rule and its fallback select no column exactly when there is no column,
    or when a p-value is NaN and no p-value is below the threshold (as when
    [chi2] is given labels of a single class); in every other case at least
    one column is selected. *)
Theorem nan_selection_empty_iff (pval : list (option Qc)) (thr : Qc) :
  initial_best_features_nan pval thr = [] ↔
  pval = [] ∨ (None ∈ pval ∧ ∀ q, Some q ∈ pval → ¬ q < thr).
Proof.
  unfold initial_best_features_nan. case_bool_decide as Hbelow.
  - rewrite at_minimum_nan_nil.
    pose proof (proj1 (below_threshold_nan_nil pval thr) Hbelow).
    tauto.
  - split; [done|]. intros [->|[_ Hall]]; [done|].
    exfalso. apply Hbelow. by apply below_threshold_nan_nil.
Qed.

(** A vector of two NaN selects nothing; without NaN the same rule selects
    the minimum. *)
Example nan_selection_demo :
  initial_best_features_nan [None; None] (Q2Qc (2 # 5)) = [] ∧
  initial_best_features_nan [Some (Q2Qc (1 # 2)); None; Some (Q2Qc (1 # 5))]
    (Q2Qc (2 # 5)) = [2%nat] ∧
  initial_best_features_nan [Some (Q2Qc (1 # 2)); Some (Q2Qc (3 # 5))]
    (Q2Qc (2 # 5)) = [0%nat].
Proof. repeat split; by vm_compute. Qed.

Lemma initial_best_features_sublist (pval : list Qc) (thr : Qc) :
  initial_best_features pval thr `sublist_of` seq 0 (length pval).
Proof.
  unfold initial_best_features, below_threshold, at_minimum.
  case_bool_decide; apply comprehension_sublist.
Qed.

Lemma list_remove_sublist (x : nat) (l l' : list nat) :
  list_remove x l = Ok l' → l' `sublist_of` l.
Proof.
  revert l'. induction l as [|y l IH]; intros l'; simpl; [done|].
  case_decide as Hxy.
  - intros [= <-]. by apply sublist_cons.
  - destruct (list_remove x l) as [l''|e]; [|done].
    intros [= <-]. apply sublist_skip. by apply IH.
Qed.

Lemma demote_loop_sublist stop_words thr kvs best final :
  foldlM (demote_step stop_words thr) best kvs = Ok final →
  final `sublist_of` best.
Proof.
  revert best. induction kvs as [|[feat [word p]] kvs IH]; intros best.
  { by intros [= <-]. }
  rewrite foldlM_cons.
  destruct (demote_step stop_words thr best (feat, (word, p)))
    as [best'|e] eqn:Hstep; [|done].
  rewrite bind_Ok. intros Hrest. apply IH in Hrest.
  etrans; [exact Hrest|].
  unfold demote_step in Hstep.
  repeat case_decide; simplify_eq; try done.
  by eapply list_remove_sublist.
Qed.

(** [X2] Lines 76-89 of [fit]: whenever the selection completes, the selected
    columns are listed in increasing order without repetition, and each of them
    is a column of the p-value vector. *)
Theorem select_features_sublist fidx stop_words (pval : list Qc) thr final :
  select_features fidx stop_words pval thr = Ok final →
  final `sublist_of` seq 0 (length pval).
Proof.
  unfold select_features.
  destruct (feature_names fidx pval (initial_best_features pval thr))
    as [names|e]; [|done].
  rewrite bind_Ok. intros Hloop.
  apply demote_loop_sublist in Hloop.
  etrans; [exact Hloop|]. apply initial_best_features_sublist.
Qed.

Lemma feature_names_loop_tokens (fidx : gmap nat string) (pval : list Qc)
    best (acc names : gmap nat (string * Qc)) :
  foldlM (feature_names_step fidx pval) acc best = Ok names →
  ∀ i, i ∈ best → is_Some (fidx !! i).
Proof.
  revert acc. induction best as [|j best IH]; intros acc Hloop i Hi.
  { by apply elem_of_nil in Hi. }
  rewrite foldlM_cons in Hloop.
  destruct (feature_names_step fidx pval acc j) as [acc'|e] eqn:Hstep;
    [|done].
  rewrite bind_Ok in Hloop.
  apply elem_of_cons in Hi as [->|Hi]; [|by eapply IH].
  unfold feature_names_step in Hstep.
  by destruct (fidx !! j).
Qed.

(** [X3] Lines 76-89 of [fit]: the selection completes exactly when every column
    picked by the threshold rule is named by the inverted vocabulary; otherwise
    [features_idx[i]] raises. *)
Theorem select_features_ok_iff fidx stop_words (pval : list Qc) thr :
  (∃ final, select_features fidx stop_words pval thr = Ok final) ↔
  ∀ i, i ∈ initial_best_features pval thr → is_Some (fidx !! i).
Proof.
  unfold select_features. split.
  - intros [final Hfinal].
    destruct (feature_names fidx pval (initial_best_features pval thr))
      as [names|e] eqn:Hnames; [|done].
    by eapply feature_names_loop_tokens.
  - intros Hcov.
    destruct (feature_names_total fidx pval (initial_best_features pval thr))
      as [names Hnames].
    { intros i Hi. split; [by apply Hcov|].
      apply lookup_lt_is_Some.
      pose proof (initial_best_features_sublist pval thr) as Hsub.
      pose proof (elem_of_sublist _ _ _ Hi Hsub) as Hi'.
      apply elem_of_seq in Hi'. lia. }
    rewrite Hnames, bind_Ok. unfold demote_stop_words.
    pose proof (feature_names_spec _ _ _ _ Hnames) as Hspec.
    destruct (demote_loop_spec stop_words thr (map_to_list names)
                (initial_best_features pval thr)) as (final & -> & _).
    { apply initial_best_features_NoDup. }
    { apply NoDup_fst_map_to_list. }
    { intros k [w p] Hin. apply elem_of_map_to_list in Hin.
      by apply Hspec in Hin as [? _]. }
    by exists final.
Qed.

(** [X4] Lines 70-71 of [fit]: on a vocabulary that gives distinct tokens
    distinct columns, [features_idx] is the inverse mapping. *)
Theorem features_idx_lookup (vocabulary : gmap string nat) (i : nat)
    (x : string) :
  (∀ x1 x2 j, vocabulary !! x1 = Some j → vocabulary !! x2 = Some j →
     x1 = x2) →
  features_idx vocabulary !! i = Some x ↔ vocabulary !! x = Some i.
Proof.
  unfold features_idx. revert i x.
  induction vocabulary as [|y j vocabulary Hy Hfold IH] using map_first_key_ind;
    intros i x Hinj.
  { by rewrite map_fold_empty, !lookup_empty. }
  rewrite map_fold_insert_first_key by done.
  assert (Hinj' : ∀ x1 x2 k, vocabulary !! x1 = Some k →
            vocabulary !! x2 = Some k → x1 = x2).
  { intros x1 x2 k H1 H2. apply (Hinj x1 x2 k).
    - rewrite lookup_insert_ne; [done|]. intros <-. congruence.
    - rewrite lookup_insert_ne; [done|]. intros <-. congruence. }
  destruct (decide (i = j)) as [->|Hij].
  - rewrite lookup_insert_eq. split.
    + intros [= <-]. by rewrite lookup_insert_eq.
    + intros Hx. f_equal. apply (Hinj y x j); [|done].
      by rewrite lookup_insert_eq.
  - rewrite lookup_insert_ne by done. rewrite IH by done.
    destruct (decide (x = y)) as [->|Hxy].
    + rewrite lookup_insert_eq, Hy. split; [done|]. by intros [= ->].
    + by rewrite lookup_insert_ne.
Qed.

End selection_invariants.

(** ** The entity lexicon *)

Section lexicon.
Context `{E : Externals}.

Lemma has_feature_empty k f : ¬ has_feature ∅ k f.
Proof. intros (names & Hk & _). by rewrite lookup_empty in Hk. Qed.

Lemma has_feature_add (lexicon : gmap string (gset string))
    (u : string) (new : gset string) k f :
  has_feature (<[u := default ∅ (lexicon !! u) ∪ new]> lexicon) k f ↔
  has_feature lexicon k f ∨ (k = u ∧ f ∈ new).
Proof.
  unfold has_feature. destruct (decide (k = u)) as [->|Hku].
  - rewrite lookup_insert_eq. split.
    + intros (names & [= <-] & Hf). apply elem_of_union in Hf as [Hf|Hf].
      * left. destruct (lexicon !! u) as [old|]; [by exists old|].
        by apply elem_of_empty in Hf.
      * by right.
    + intros [(names & Hu & Hf)|[_ Hf]]; eexists; (split; [done|]).
      * rewrite Hu. set_solver.
      * set_solver.
  - rewrite lookup_insert_ne by done. naive_solver.
Qed.

Lemma has_feature_add_all (f0 : string) (us : list string)
    (lexicon : gmap string (gset string)) k f :
  has_feature
    (foldl (λ acc u, <[u := default ∅ (acc !! u) ∪ {[f0]}]> acc) lexicon us)
    k f ↔
  has_feature lexicon k f ∨ (k ∈ us ∧ f = f0).
Proof.
  revert lexicon. induction us as [|u us IH]; intros lexicon; simpl.
  { split; [by left|]. intros [?|[Hk _]]; [done|].
    by apply elem_of_nil in Hk. }
  rewrite IH, has_feature_add, elem_of_cons, elem_of_singleton.
  naive_solver.
Qed.

Lemma utterances_to_features_has (dataset : Dataset)
    (language u f : string) :
  has_feature (_get_utterances_to_features_names dataset language) u f ↔
  ∃ entity_name utterances,
    dataset !! entity_name = Some utterances ∧
    is_builtin_entity entity_name = false ∧
    u ∈ utterances ∧
    f = _entity_name_to_feature entity_name language.
Proof.
  unfold _get_utterances_to_features_names. revert u f.
  apply (map_fold_weak_ind (λ r (m : gmap string (list string)), ∀ u f,
    has_feature r u f ↔
    ∃ entity_name utterances,
      m !! entity_name = Some utterances ∧
      is_builtin_entity entity_name = false ∧
      u ∈ utterances ∧
      f = _entity_name_to_feature entity_name language)).
  - intros u f. split; [by intros ?%has_feature_empty|].
    intros (e & us & He & _). by rewrite lookup_empty in He.
  - intros e us m r He IH u f.
    destruct (is_builtin_entity e) eqn:Hbuiltin.
    + rewrite IH. split; intros (e' & us' & He' & Hb & Hu & Hf).
      * exists e', us'. rewrite lookup_insert_ne; [done|]. congruence.
      * exists e', us'. destruct (decide (e = e')) as [<-|Hne];
          [congruence|]. by rewrite lookup_insert_ne in He'.
    + rewrite has_feature_add_all, IH. split.
      * intros [(e' & us' & He' & Hb & Hu & Hf)|[Hu Hf]].
        -- exists e', us'. rewrite lookup_insert_ne; [done|]. congruence.
        -- exists e, us. by rewrite lookup_insert_eq.
      * intros (e' & us' & He' & Hb & Hu & Hf).
        destruct (decide (e = e')) as [<-|Hne].
        -- rewrite lookup_insert_eq in He'. injection He' as <-. by right.
        -- rewrite lookup_insert_ne in He' by done. left. by exists e', us'.
Qed.

(** [X5] Lines 240-248: the feature names listed under an utterance are the
    pseudo-tokens of the custom entities that have it as an example; built-in
    entities contribute nothing. *)
Theorem utterances_to_features_names_spec (dataset : Dataset)
    (language u f : string) :
  has_feature (_get_utterances_to_features_names dataset language) u f ↔
  ∃ entity_name utterances,
    dataset !! entity_name = Some utterances ∧
    is_builtin_entity entity_name = false ∧
    u ∈ utterances ∧
    f = _entity_name_to_feature entity_name language.
Proof. apply utterances_to_features_has. Qed.

Lemma normalized_utterances_to_features_spec
    (utterances_to_features : gmap string (gset string))
    (language k f : string) :
  has_feature
    (normalized_utterances_to_features utterances_to_features language) k f ↔
  ∃ u, _normalize_stem u language = k ∧
       has_feature utterances_to_features u f.
Proof.
  unfold normalized_utterances_to_features. revert k f.
  apply (map_fold_weak_ind
    (λ r (m : gmap string (gset string)), ∀ k f,
       has_feature r k f ↔
       ∃ u, _normalize_stem u language = k ∧ has_feature m u f)).
  - intros k f. split; [by intros ?%has_feature_empty|].
    by intros (u & _ & ?%has_feature_empty).
  - intros u names m r Hu IH k f. cbv zeta.
    rewrite has_feature_add, IH. unfold has_feature. split.
    + intros [(u' & Hk & names' & Hu' & Hf)|[-> Hf]].
      * exists u'. split; [done|]. exists names'.
        rewrite lookup_insert_ne; [done|]. congruence.
      * exists u. split; [done|]. exists names. by rewrite lookup_insert_eq.
    + intros (u' & Hk & names' & Hu' & Hf).
      destruct (decide (u = u')) as [<-|Hne].
      * rewrite lookup_insert_eq in Hu'. injection Hu' as <-. by right.
      * rewrite lookup_insert_ne in Hu' by done. left. exists u'. eauto.
Qed.

Lemma pop_unknown_word_spec (unknown : option string)
    (normalized : gmap string (gset string)) (k f : string) :
  has_feature (pop_unknown_word unknown normalized) k f ↔
  unknown ≠ Some k ∧ has_feature normalized k f.
Proof.
  unfold pop_unknown_word, has_feature. destruct unknown as [s|].
  - case_decide as Hs.
    + destruct (decide (k = s)) as [->|Hks].
      * rewrite lookup_delete_eq. naive_solver.
      * rewrite lookup_delete_ne by done. naive_solver.
    + split; [|naive_solver]. intros (names & Hk & Hf).
      split; [|eauto]. intros [= ->]. apply Hs. by eexists.
  - naive_solver.
Qed.

(** [X6] Lines 49-61 of [fit]: the lexicon stored by [fit] lists a feature name
    under a key exactly when the key is not the unknown-word string and is the
    normalized and stemmed form of an example of a custom entity whose
    pseudo-token is that feature name. *)
Theorem fitted_lexicon_spec (self : Featurizer) (dataset : Dataset)
    (k f : string) :
  has_feature (fitted_lexicon self dataset) k f ↔
  unknown_words_replacement_string self ≠ Some k ∧
  ∃ entity_name utterances u,
    dataset !! entity_name = Some utterances ∧
    is_builtin_entity entity_name = false ∧
    u ∈ utterances ∧
    _normalize_stem u (language self) = k ∧
    f = _entity_name_to_feature entity_name (language self).
Proof.
  unfold fitted_lexicon.
  rewrite pop_unknown_word_spec, normalized_utterances_to_features_spec.
  split.
  - intros [Hunk (u & Hk & Hu)]. split; [done|].
    apply utterances_to_features_has in Hu
      as (e & us & He & Hb & Hin & Hf).
    by exists e, us, u.
  - intros [Hunk (e & us & u & He & Hb & Hin & Hk & Hf)]. split; [done|].
    exists u. split; [done|].
    apply utterances_to_features_has. by exists e, us.
Qed.

Lemma nonempty_values_add (lexicon : gmap string (gset string))
    (u : string) (new : gset string) :
  new ≠ ∅ →
  (∀ k names, lexicon !! k = Some names → names ≠ ∅) →
  ∀ k names,
    <[u := default ∅ (lexicon !! u) ∪ new]> lexicon !! k = Some names →
    names ≠ ∅.
Proof.
  intros Hnew Hlex k names. destruct (decide (k = u)) as [->|Hku].
  - rewrite lookup_insert_eq. intros [= <-]. set_solver.
  - rewrite lookup_insert_ne by done. apply Hlex.
Qed.

(** [X7] Lines 49-61 of [fit]: every key of the lexicon stored by [fit] lists at
    least one feature name. *)
Theorem fitted_lexicon_values_nonempty (self : Featurizer)
    (dataset : Dataset) (k : string) :
  is_Some (fitted_lexicon self dataset !! k) →
  ∃ f, has_feature (fitted_lexicon self dataset) k f.
Proof.
  intros [names Hk].
  enough (Hne : names ≠ ∅).
  { apply set_choose_L in Hne as [f Hf]. by exists f, names. }
  revert Hk. unfold fitted_lexicon.
  assert (Hraw : ∀ k names,
    _get_utterances_to_features_names dataset (language self) !! k
      = Some names → names ≠ ∅).
  { unfold _get_utterances_to_features_names.
    apply (map_fold_weak_ind
      (λ (r : gmap string (gset string)) (_ : gmap string (list string)),
         ∀ k names, r !! k = Some names → names ≠ ∅)).
    { intros k' names'. by rewrite lookup_empty. }
    intros e us m r _ IH. destruct (is_builtin_entity e); [done|].
    clear m. revert r IH. induction us as [|u us IHus]; intros r IH; simpl;
      [done|].
    apply IHus. apply nonempty_values_add; [set_solver|done]. }
  assert (Hnorm : ∀ k names,
    normalized_utterances_to_features
      (_get_utterances_to_features_names dataset (language self))
      (language self) !! k = Some names → names ≠ ∅).
  { revert Hraw. unfold normalized_utterances_to_features.
    apply (map_fold_weak_ind
      (λ (r m : gmap string (gset string)),
         (∀ k names, m !! k = Some names → names ≠ ∅) →
         ∀ k names, r !! k = Some names → names ≠ ∅)).
    { intros _ k' names'. by rewrite lookup_empty. }
    intros u v m r Hu IH Hm. cbv zeta. apply nonempty_values_add.
    - apply (Hm u). by rewrite lookup_insert_eq.
    - apply IH. intros k' names' Hk'. apply (Hm k').
      rewrite lookup_insert_ne; [done|]. congruence. }
  unfold pop_unknown_word.
  destruct (unknown_words_replacement_string self) as [s|]; [|apply Hnorm].
  case_decide; [|apply Hnorm].
  destruct (decide (k = s)) as [->|Hks].
  - by rewrite lookup_delete_eq.
  - rewrite lookup_delete_ne by done. apply Hnorm.
Qed.

End lexicon.

(** ** Preprocessing *)

Section preprocessing_edges.
Context `{E : Externals}.

Lemma preprocess_queries_loop (self : Featurizer) (queries acc out : list string) :
  foldlM (λ preprocessed_queries q,
    processed_query ← _preprocess_query q (language self)
      (entity_utterances_to_feature_names self);
    Ok (preprocessed_queries ++ [processed_query])) acc queries = Ok out ↔
  ∃ out', out = acc ++ out' ∧
    Forall2 (λ q o, _preprocess_query q (language self)
                      (entity_utterances_to_feature_names self) = Ok o)
      queries out'.
Proof.
  revert acc. induction queries as [|q queries IH]; intros acc.
  { simpl. split.
    - intros [= <-]. exists []. by rewrite app_nil_r.
    - intros (out' & -> & ->%Forall2_nil_inv_l). by rewrite app_nil_r. }
  rewrite foldlM_cons.
  destruct (_preprocess_query q (language self)
              (entity_utterances_to_feature_names self)) as [o|e] eqn:Hq.
  - rewrite !bind_Ok, IH. split.
    + intros (out' & -> & Hall). exists (o :: out').
      rewrite <- app_assoc. split; [done|]. by constructor.
    + intros (out' & -> & Hall).
      apply Forall2_cons_inv_l in Hall as (o' & out'' & Ho & Hall & ->).
      exists out''. rewrite <- app_assoc. split; [|done].
      rewrite Hq in Ho. by injection Ho as ->.
  - rewrite bind_Raise. split; [done|].
    intros (out' & -> & Hall).
    apply Forall2_cons_inv_l in Hall as (o' & out'' & Ho & _).
    by rewrite Hq in Ho.
Qed.

(** [X8] Lines 104-110: [preprocess_queries] returns a list exactly when every
    query preprocesses, and then the list holds the preprocessed form of each
    query, in the order of the queries. *)
Theorem preprocess_queries_spec (self : Featurizer)
    (queries out : list string) :
  preprocess_queries self queries = Ok out ↔
  Forall2 (λ q o, _preprocess_query q (language self)
                    (entity_utterances_to_feature_names self) = Ok o)
    queries out.
Proof.
  unfold preprocess_queries. rewrite preprocess_queries_loop.
  split; [by intros (out' & -> & ?)|]. intros Hall. by exists out.
Qed.

(** [X9] Lines 200-211: when the cluster name configured for the language is not
    a key of the language's word clusters, the lookup raises [KeyError] for
    every token list that has an n-gram, and only for those. *)
Theorem word_cluster_features_missing_resource (tokens : list string)
    (language name : string) :
  CLUSTER_USED_PER_LANGUAGES !! language = Some name →
  name ≠ "" →
  get_word_clusters language !! name = None →
  (get_all_ngrams tokens = [] →
     _get_word_cluster_features tokens language = Ok []) ∧
  (get_all_ngrams tokens ≠ [] →
     _get_word_cluster_features tokens language
     = Raise (KeyError (KStr name))).
Proof.
  intros Hname Hne Hres. unfold _get_word_cluster_features.
  rewrite Hname. case_decide; [done|].
  split.
  - by intros ->.
  - destruct (get_all_ngrams tokens) as [|ngram ngrams]; [done|].
    intros _. rewrite foldlM_cons. unfold getitem. rewrite Hres.
    reflexivity.
Qed.

(** [X10] Lines 181-183: [_get_tokens_clusters] distributes over the
    concatenation of token lists, and a missing cluster name makes either side
    raise. *)
Theorem tokens_clusters_app (tokens1 tokens2 : list string)
    (language cluster_name : string) :
  _get_tokens_clusters (tokens1 ++ tokens2) language cluster_name
  = (l1 ← _get_tokens_clusters tokens1 language cluster_name;
     l2 ← _get_tokens_clusters tokens2 language cluster_name;
     Ok (l1 ++ l2)).
Proof.
  unfold _get_tokens_clusters, getitem.
  destruct (get_word_clusters language !! cluster_name) as [clusters|];
    [|done].
  rewrite !bind_Ok. f_equal. apply omap_app.
Qed.

Lemma dataset_entities_features_no_lexicon (tokens : list string) :
  _get_dataset_entities_features tokens None
  = match get_all_ngrams tokens with
    | [] => Ok []
    | _ => Raise (AttributeError "get")
    end.
Proof.
  unfold _get_dataset_entities_features.
  by destruct (get_all_ngrams tokens).
Qed.

Lemma preprocess_query_no_lexicon (query language : string) :
  cluster_resource_available language →
  get_all_ngrams
    ((λ t, _normalize_stem t language) <$> tokenize_light query language)
    ≠ [] →
  _preprocess_query query language None = Raise (AttributeError "get").
Proof.
  intros Hres Hngrams. unfold _preprocess_query.
  rewrite word_cluster_features_spec by done. rewrite bind_Ok.
  rewrite dataset_entities_features_no_lexicon.
  by destruct (get_all_ngrams _).
Qed.

Lemma preprocess_query_no_lexicon_cases (query language : string) :
  cluster_resource_available language →
  (∃ o, _preprocess_query query language None = Ok o) ∨
  _preprocess_query query language None = Raise (AttributeError "get").
Proof.
  intros Hres. unfold _preprocess_query.
  rewrite word_cluster_features_spec by done. rewrite bind_Ok.
  rewrite dataset_entities_features_no_lexicon.
  destruct (get_all_ngrams _); [left|by right].
  rewrite bind_Ok. by eexists.
Qed.

(** [X11] Lines 93-99, 104-110 and 214-221: on a featurizer that was never
    fitted (its lexicon is still [None]), [transform] raises [AttributeError] as
    soon as one query has an n-gram to look up. *)
Theorem transform_without_lexicon_raises (self : Featurizer)
    (queries : list string) :
  entity_utterances_to_feature_names self = None →
  cluster_resource_available (language self) →
  (∃ q, q ∈ queries ∧
     get_all_ngrams
       ((λ t, _normalize_stem t (language self))
          <$> tokenize_light q (language self)) ≠ []) →
  transform self queries = Raise (AttributeError "get").
Proof.
  intros Hlex Hres Hq. unfold transform, preprocess_queries.
  rewrite Hlex.
  enough (Hloop : ∀ acc,
    foldlM (λ preprocessed_queries q,
      processed_query ← _preprocess_query q (language self) None;
      Ok (preprocessed_queries ++ [processed_query])) acc queries
    = Raise (AttributeError "get")) by by rewrite Hloop.
  induction queries as [|q0 queries IH]; intros acc.
  { destruct Hq as (q & Hq & _). by apply elem_of_nil in Hq. }
  rewrite foldlM_cons.
  destruct (preprocess_query_no_lexicon_cases q0 (language self) Hres)
    as [[o Ho]| ->]; [|done].
  rewrite Ho, !bind_Ok. apply IH.
  destruct Hq as (q & Hq & Hngrams).
  apply elem_of_cons in Hq as [->|Hq]; [|by exists q].
  by rewrite preprocess_query_no_lexicon in Ho.
Qed.

End preprocessing_edges.

(** ** Snapshots *)

Section snapshots.
Context `{E : Externals}.

(** [X12] Lines 112-144: [to_dict] returns a snapshot exactly when the
    vectorizer has no vocabulary yet, or has IDF weights and the featurizer has
    a lexicon. *)
Theorem to_dict_ok_iff (self : Featurizer) :
  (∃ d, to_dict self = Ok d) ↔
  vocabulary_ (tfidf_vectorizer self) = None ∨
  (is_Some (_idf_diag (_tfidf (tfidf_vectorizer self))) ∧
   is_Some (entity_utterances_to_feature_names self)).
Proof.
  unfold to_dict.
  destruct (vocabulary_ (tfidf_vectorizer self)) as [vocab|].
  - destruct (_idf_diag (_tfidf (tfidf_vectorizer self))) as [idf|],
      (entity_utterances_to_feature_names self) as [lexicon|];
      split; try (by intros [d Hd]); try (by eauto).
    + intros [[=]|[_ [? [=]]]].
    + intros [[=]|[[? [=]] _]].
    + intros [[=]|[[? [=]] _]].
  - split; [by left|]. by eexists.
Qed.

Lemma unfitted_roundtrip (self : Featurizer) :
  vocabulary_ (tfidf_vectorizer self) = None →
  config_from_dict (config_to_dict (config self)) = Ok (config self) →
  ∃ self',
    to_dict self ≫= from_dict = Ok self' ∧
    entity_utterances_to_feature_names self' = Some ∅ ∧
    vocabulary_ (tfidf_vectorizer self') = None ∧
    _idf_diag (_tfidf (tfidf_vectorizer self')) = None ∧
    best_features self' = best_features self ∧
    pvalue_threshold self' = pvalue_threshold self ∧
    language self' = language self ∧
    config self' = config self ∧
    unknown_words_replacement_string self'
      = unknown_words_replacement_string self.
Proof.
  intros Hvocab Hconfig. unfold to_dict. rewrite Hvocab, bind_Ok.
  unfold from_dict, to_dict_result, key. simpl. res_simpl.
  rewrite Hconfig. res_simpl.
  unfold _deserialize_tfidf_vectorizer, key. simpl. res_simpl.
  eexists. split; [reflexivity|]. simpl.
  by rewrite fmap_empty.
Qed.

(** [X13] Lines 112-171: the snapshot of a featurizer whose vectorizer has no
    vocabulary does not carry the lexicon: the featurizer rebuilt from it has an
    empty lexicon and an unfitted vectorizer, and keeps the other attributes. *)
Theorem unfitted_roundtrip_resets_lexicon (self : Featurizer) :
  vocabulary_ (tfidf_vectorizer self) = None →
  config_from_dict (config_to_dict (config self)) = Ok (config self) →
  ∃ self',
    to_dict self ≫= from_dict = Ok self' ∧
    entity_utterances_to_feature_names self' = Some ∅ ∧
    vocabulary_ (tfidf_vectorizer self') = None ∧
    _idf_diag (_tfidf (tfidf_vectorizer self')) = None ∧
    best_features self' = best_features self ∧
    pvalue_threshold self' = pvalue_threshold self ∧
    language self' = language self ∧
    config self' = config self ∧
    unknown_words_replacement_string self'
      = unknown_words_replacement_string self.
Proof. apply unfitted_roundtrip. Qed.

(** [X14] Lines 48-64 and 112-171: after [fit] on a corpus without tokens, the
    lexicon [fit] has just stored is lost by a round trip through the snapshot,
    because the vectorizer is still unfitted. *)
Theorem empty_corpus_snapshot_drops_lexicon (self : Featurizer)
    (dataset : Dataset) (queries : list string) (y : list nat) :
  (∀ q, q ∈ queries → join "" (tokenize_light q (language self)) = "") →
  vocabulary_ (tfidf_vectorizer self) = None →
  config_from_dict (config_to_dict (config self)) = Ok (config self) →
  entity_utterances_to_feature_names (fit self dataset queries y).1
    = Some (fitted_lexicon self dataset) ∧
  ∃ self',
    to_dict (fit self dataset queries y).1 ≫= from_dict = Ok self' ∧
    entity_utterances_to_feature_names self' = Some ∅.
Proof.
  intros Hempty Hvocab Hconfig. rewrite fit_empty_corpus by done. simpl.
  split; [done|].
  destruct (unfitted_roundtrip
    (set_entity_utterances_to_feature_names self
       (Some (fitted_lexicon self dataset))))
    as (self' & Hrt & Hlex & _); [done..|].
  by exists self'.
Qed.

(** Lines 112-171, with every set of names listed in the one order
    [to_dict] has in this model: rebuilding a featurizer from the snapshot of
    [self] and taking its snapshot gives the same snapshot. *)
Lemma snapshot_stable (self : Featurizer) (d : FeaturizerDict) :
  to_dict self = Ok d →
  config_from_dict (config_to_dict (config self)) = Ok (config self) →
  from_dict d ≫= to_dict = Ok d.
Proof.
  intros Hd Hconfig.
  destruct (vocabulary_ (tfidf_vectorizer self)) as [vocab|] eqn:Hvocab.
  - pose proof Hd as Hd'. unfold to_dict in Hd'. rewrite Hvocab in Hd'.
    destruct (_idf_diag (_tfidf (tfidf_vectorizer self))) as [idf|] eqn:Hidf;
      [|done].
    destruct (entity_utterances_to_feature_names self) as [lexicon|] eqn:Hlex;
      [|done].
    pose proof (roundtrip_state self vocab idf lexicon Hvocab Hidf Hlex
                  Hconfig) as Hrt.
    rewrite Hd, bind_Ok in Hrt. rewrite Hrt, bind_Ok.
    rewrite <- Hd. unfold to_dict. simpl. by rewrite Hvocab, Hidf, Hlex.
  - unfold to_dict in Hd. rewrite Hvocab in Hd. injection Hd as <-.
    unfold from_dict, to_dict_result, key. simpl. res_simpl.
    rewrite Hconfig. res_simpl.
    unfold _deserialize_tfidf_vectorizer, key. simpl. res_simpl.
    unfold to_dict. simpl. by rewrite fmap_empty.
Qed.

(** [X16] Lines 112-171: a fitted featurizer whose vectorizer was built from its
    own language and configuration, with scikit-learn's default weighting
    options, is restored exactly by the round trip through its snapshot. *)
Theorem roundtrip_identity_default_options (self : Featurizer) :
  is_Some (vocabulary_ (tfidf_vectorizer self)) →
  is_Some (_idf_diag (_tfidf (tfidf_vectorizer self))) →
  is_Some (entity_utterances_to_feature_names self) →
  config_from_dict (config_to_dict (config self)) = Ok (config self) →
  tokenizer_language (tfidf_vectorizer self) = language self →
  init_kwargs (tfidf_vectorizer self) = config_to_dict (config self) →
  default_options (_tfidf (tfidf_vectorizer self)) →
  to_dict self ≫= from_dict = Ok self.
Proof.
  intros [vocab Hvocab] [idf Hidf] [lexicon Hlex] Hconfig Hlang Hkw
    (Hnorm & Huse & Hsmooth & Hsub).
  rewrite (roundtrip_state self vocab idf lexicon) by done. f_equal.
  unfold set_tfidf_vectorizer, rebuilt_vectorizer.
  destruct self as [c l [tl kw v [n u sm sb i]] b t lx un].
  simpl in *. by subst.
Qed.

(** [X17] Lines 146-171 and 251-267: whatever the snapshot and its
    configuration, a featurizer returned by [from_dict] has a transformer with
    scikit-learn's default weighting options, and a vectorizer built from the
    snapshot's language and configuration. *)
Theorem from_dict_default_transformer (d : FeaturizerDict)
    (self : Featurizer) :
  from_dict d = Ok self →
  default_options (_tfidf (tfidf_vectorizer self)) ∧
  tokenizer_language (tfidf_vectorizer self) = language self ∧
  init_kwargs (tfidf_vectorizer self) = config_to_dict (config self).
Proof.
  destruct d as [lang vec best thr lex cfg unk].
  unfold from_dict, key. simpl.
  destruct lang as [lang|]; [|done]. res_simpl.
  destruct cfg as [cfg|]; [|done]. res_simpl.
  destruct (config_from_dict cfg) as [c|e]; [|done]. res_simpl.
  destruct vec as [[vocab idf]|]; [|done]. res_simpl.
  unfold _deserialize_tfidf_vectorizer, key. simpl.
  destruct vocab as [vocab|]; [|done]. res_simpl.
  destruct vocab as [v|].
  - destruct idf as [[idf|]|]; [|done..]. res_simpl.
    destruct lex; [|done]. res_simpl.
    destruct thr; [|done]. res_simpl.
    destruct best; [|done]. res_simpl.
    destruct unk; [|done]. res_simpl.
    intros [= <-]. simpl. unfold default_options. simpl.
    by rewrite !lookup_empty.
  - res_simpl.
    destruct lex; [|done]. res_simpl.
    destruct thr; [|done]. res_simpl.
    destruct best; [|done]. res_simpl.
    destruct unk; [|done]. res_simpl.
    intros [= <-]. simpl. unfold default_options. simpl.
    by rewrite !lookup_empty.
Qed.

Lemma from_dict_ok_missing (d : FeaturizerDict) :
  missing_required_key d → raises (from_dict d).
Proof.
  destruct d as [lang vec best thr lex cfg unk].
  unfold missing_required_key, from_dict, key. simpl.
  intros Hmissing.
  destruct lang as [lang|]; [|done]. res_simpl.
  destruct cfg as [cfg|]; [|done]. res_simpl.
  destruct (config_from_dict cfg) as [c|e]; [|done]. res_simpl.
  destruct vec as [[vocab idf]|]; [|done]. res_simpl.
  unfold _deserialize_tfidf_vectorizer, key. simpl.
  destruct vocab as [vocab|]; [|done]. res_simpl.
  assert (Hrest : lex = None ∨ thr = None ∨ best = None ∨ unk = None ∨
            (∃ v, vocab = Some v ∧ idf = None)).
  { destruct Hmissing as [?|[?|[?|[(vd & ? & ?)|[(vd & v & ? & ? & ?)|H]]]]];
      simplify_eq/=; [eauto 10|]. tauto. }
  clear Hmissing.
  destruct vocab as [v|], idf as [[idf|]|]; res_simpl; try done;
    try (destruct Hrest as [?|[?|[?|[?|(? & ? & ?)]]]]; simplify_eq/=);
    try (destruct lex; [|done]); res_simpl;
    try (destruct thr; [|done]); res_simpl;
    try (destruct best; [|done]); res_simpl;
    try (destruct unk; [|done]); res_simpl; try done.
Qed.

(** [X18] Lines 146-171 and 251-267: [from_dict] returns a featurizer exactly
    when no key it reads is missing, the configuration parses, and IDF weights
    come with the vocabulary; it checks nothing else. *)
Theorem from_dict_ok_iff (d : FeaturizerDict) :
  (∃ self, from_dict d = Ok self) ↔
  ¬ missing_required_key d ∧
  (∃ cfg c, d_config d = Some cfg ∧ config_from_dict cfg = Ok c) ∧
  ¬ (∃ vd vocab, d_tfidf_vectorizer d = Some vd ∧
       vd_vocab vd = Some (Some vocab) ∧ vd_idf_diag vd = Some None).
Proof.
  split.
  - intros [self Hself]. split; [|split].
    + intros Hmissing. apply from_dict_ok_missing in Hmissing.
      by rewrite Hself in Hmissing.
    + destruct d as [lang vec best thr lex cfg unk].
      unfold from_dict, key in Hself. simpl in *.
      destruct lang as [lang|]; [|done]. revert Hself. res_simpl.
      destruct cfg as [cfg|]; [|done]. res_simpl.
      destruct (config_from_dict cfg) as [c|e] eqn:Hc; [|done].
      intros _. by exists cfg, c.
    + intros (vd & vocab & Hvd & Hvocab & Hidf).
      destruct d as [lang vec best thr lex cfg unk].
      unfold from_dict, key in Hself. simpl in *. subst vec.
      destruct vd as [vocab' idf']. simpl in *. subst vocab' idf'.
      destruct lang as [lang|]; [|done]. revert Hself. res_simpl.
      destruct cfg as [cfg|]; [|done]. res_simpl.
      destruct (config_from_dict cfg) as [c|e]; [|done]. res_simpl.
      unfold _deserialize_tfidf_vectorizer, key. simpl. by res_simpl.
  - intros (Hkeys & (cfg0 & c & Hcfg & Hc) & Hidf).
    destruct d as [lang vec best thr lex cfg unk].
    unfold missing_required_key in Hkeys. simpl in *. subst cfg.
    unfold from_dict, key. simpl.
    destruct lang as [lang|]; [|tauto]. res_simpl.
    rewrite Hc. res_simpl.
    destruct vec as [[vocab idf]|]; [|tauto]. res_simpl.
    unfold _deserialize_tfidf_vectorizer, key. simpl.
    destruct vocab as [vocab|]; [|exfalso; apply Hkeys; eauto 10].
    res_simpl.
    destruct lex as [lex|]; [|tauto].
    destruct thr as [thr|]; [|tauto].
    destruct best as [best|]; [|tauto].
    destruct unk as [unk|]; [|tauto].
    destruct vocab as [v|]; res_simpl; [|by eexists].
    destruct idf as [[idf|]|]; res_simpl.
    + by eexists.
    + exfalso. apply Hidf. by eexists _, _.
    + exfalso. apply Hkeys. do 4 right. left. by eexists _, _.
Qed.

(** [X19] Lines 156-159: [from_dict] turns each list of feature names into a
    set, so two snapshots that differ only by the order or the repetition of the
    names in these lists give the same result. *)
Theorem from_dict_lexicon_order_insensitive (d : FeaturizerDict)
    (lexicon1 lexicon2 : gmap string (list string)) :
  (∀ k, option_Forall2 (λ l1 l2 : list string, ∀ x, x ∈ l1 ↔ x ∈ l2)
          (lexicon1 !! k) (lexicon2 !! k)) →
  from_dict
    {| d_language_code := d_language_code d;
       d_tfidf_vectorizer := d_tfidf_vectorizer d;
       d_best_features := d_best_features d;
       d_pvalue_threshold := d_pvalue_threshold d;
       d_entity_utterances_to_feature_names := Some lexicon1;
       d_config := d_config d;
       d_unknown_words_replacement_string :=
         d_unknown_words_replacement_string d |}
  = from_dict
    {| d_language_code := d_language_code d;
       d_tfidf_vectorizer := d_tfidf_vectorizer d;
       d_best_features := d_best_features d;
       d_pvalue_threshold := d_pvalue_threshold d;
       d_entity_utterances_to_feature_names := Some lexicon2;
       d_config := d_config d;
       d_unknown_words_replacement_string :=
         d_unknown_words_replacement_string d |}.
Proof.
  intros Hsame.
  assert (Hsets : (list_to_set <$> lexicon1 : gmap string (gset string))
                  = list_to_set <$> lexicon2).
  { apply map_eq. intros k. rewrite !lookup_fmap.
    destruct (Hsame k) as [l1 l2 Hl|]; [|done]. simpl. f_equal.
    apply set_eq. intros x. by rewrite !elem_of_list_to_set. }
  unfold from_dict. simpl. unfold key at 6 12. simpl.
  by rewrite Hsets.
Qed.

Lemma list_to_set_same_up_to_order
    (lexicon lexicon0 : gmap string (list string)) :
  (∀ k, option_Forall2 (≡ₚ) (lexicon !! k) (lexicon0 !! k)) →
  (list_to_set <$> lexicon : gmap string (gset string))
  = list_to_set <$> lexicon0.
Proof.
  intros Hsame. apply map_eq. intros k. rewrite !lookup_fmap.
  destruct (Hsame k) as [l l0 Hl|]; [|done]. simpl. f_equal.
  by rewrite Hl.
Qed.

Lemma from_dict_same_up_to_order (d d0 : FeaturizerDict) :
  same_up_to_order d d0 → from_dict d = from_dict d0.
Proof.
  destruct d as [lang vec best thr lex cfg unk].
  destruct d0 as [lang0 vec0 best0 thr0 lex0 cfg0 unk0].
  unfold same_up_to_order. simpl.
  intros (-> & -> & -> & -> & -> & -> & Hlex).
  destruct lex as [lexicon|], lex0 as [lexicon0|]; try done.
  unfold from_dict. simpl. unfold key at 6 12. simpl.
  by rewrite (list_to_set_same_up_to_order _ _ Hlex).
Qed.

(** [X15] Lines 112-171: snapshots are stable up to the order in which
    Python lists the names of each lexicon key. If [d] is a snapshot
    [to_dict] can return for [self], then [from_dict] accepts [d], and [d] is
    again a snapshot [to_dict] can return for the rebuilt featurizer. *)
Theorem snapshot_stable_up_to_order (self : Featurizer)
    (d : FeaturizerDict) :
  possible_snapshot self d →
  config_from_dict (config_to_dict (config self)) = Ok (config self) →
  ∃ self', from_dict d = Ok self' ∧ possible_snapshot self' d.
Proof.
  intros (d0 & Hd0 & Hsame) Hconfig.
  pose proof (snapshot_stable self d0 Hd0 Hconfig) as Hstable.
  rewrite (from_dict_same_up_to_order d d0 Hsame).
  destruct (from_dict d0) as [self'|e]; [|done].
  rewrite bind_Ok in Hstable. exists self'. split; [done|]. by exists d0.
Qed.

End snapshots.

(** ** Fitting and transforming *)

Section fit_states.
Context `{E : Externals}.

Lemma all_queries_empty_false (language : string) (queries : list string) :
  all_queries_empty language queries = false →
  ∃ q, q ∈ queries ∧ join "" (tokenize_light q language) ≠ "".
Proof.
  unfold all_queries_empty.
  induction queries as [|q0 queries IH]; simpl; [done|].
  case_bool_decide as Hq0; simpl.
  - intros Hrest. destruct (IH Hrest) as (q & Hq & Hne).
    exists q. split; [by apply elem_of_cons; right | done].
  - intros _. exists q0. split; [by apply elem_of_cons; left | done].
Qed.

(** [X20] Lines 48-91: when [fit] returns [self], some query had a token, the
    vectorizer has a vocabulary, the lexicon is the one of the dataset, the
    selected columns are listed without repetition, and the language, the
    configuration, the threshold and the unknown-word string are unchanged. *)
Theorem fit_returns_self_fitted (self : Featurizer) (dataset : Dataset)
    (queries : list string) (y : list nat) :
  (fit self dataset queries y).2 = Ok ReturnSelf →
  (∃ q, q ∈ queries ∧ join "" (tokenize_light q (language self)) ≠ "") ∧
  is_Some (vocabulary_ (tfidf_vectorizer (fit self dataset queries y).1)) ∧
  entity_utterances_to_feature_names (fit self dataset queries y).1
    = Some (fitted_lexicon self dataset) ∧
  (∃ final, best_features (fit self dataset queries y).1 = Some final ∧
     NoDup final) ∧
  language (fit self dataset queries y).1 = language self ∧
  config (fit self dataset queries y).1 = config self ∧
  pvalue_threshold (fit self dataset queries y).1 = pvalue_threshold self ∧
  unknown_words_replacement_string (fit self dataset queries y).1
    = unknown_words_replacement_string self.
Proof.
  unfold fit. cbv zeta.
  destruct (all_queries_empty _ queries) eqn:Hempty; [done|].
  destruct (preprocess_queries _ queries) as [preprocessed|e]; [|done].
  destruct (sk_fit_transform _ preprocessed) as [[vectorizer X]|e]; [|done].
  destruct (vocabulary_ vectorizer) as [vocabulary|] eqn:Hvocab; [|done].
  destruct (chi2 X y) as [pval|e]; [|done].
  destruct (Selector.feature_names _ pval _) as [names|e]; [|done].
  destruct (Selector.demote_stop_words _ _ names _) as [final|e] eqn:Hfinal;
    [|done].
  simpl. intros _. split; [|split; [|split; [|split]]]; try done.
  - by apply all_queries_empty_false.
  - exists final. split; [done|].
    apply demote_loop_sublist in Hfinal.
    eapply sublist_NoDup; [apply initial_best_features_NoDup|exact Hfinal].
Qed.

(** [X21] Lines 48-91: [fit] is not atomic when [chi2] raises: the exception
    leaves the featurizer with the new lexicon and the refitted vectorizer, but
    with the columns selected by the previous fit. *)
Theorem fit_chi2_failure_not_atomic (self : Featurizer) (dataset : Dataset)
    (queries preprocessed : list string) (y : list nat)
    (vectorizer : TfidfVectorizer) (X : Matrix) (e : exn) :
  all_queries_empty (language self) queries = false →
  preprocess_queries
    (set_entity_utterances_to_feature_names self
       (Some (fitted_lexicon self dataset))) queries = Ok preprocessed →
  sk_fit_transform (tfidf_vectorizer self) preprocessed
    = Ok (vectorizer, X) →
  is_Some (vocabulary_ vectorizer) →
  chi2 X y = Raise e →
  (fit self dataset queries y).2 = Raise e ∧
  tfidf_vectorizer (fit self dataset queries y).1 = vectorizer ∧
  best_features (fit self dataset queries y).1 = best_features self ∧
  entity_utterances_to_feature_names (fit self dataset queries y).1
    = Some (fitted_lexicon self dataset).
Proof.
  intros Hempty Hpre Hfit [vocabulary Hvocab] Hchi2.
  unfold fit. cbv zeta. simpl in *.
  rewrite Hempty, Hpre. simpl. rewrite Hfit, Hvocab, Hchi2. done.
Qed.

Lemma select_row_length (row : list Qc) (cols : list nat) (row' : list Qc) :
  foldr (λ j acc,
    acc' ← acc;
    match row !! j with
    | Some x => Ok (x :: acc')
    | None => Raise IndexError
    end) (Ok []) cols = Ok row' →
  length row' = length cols.
Proof.
  revert row'. induction cols as [|j cols IH]; intros row'; simpl.
  { by intros [= <-]. }
  destruct (foldr _ _ cols) as [acc'|e]; [|done]. rewrite bind_Ok.
  destruct (row !! j); [|done]. intros [= <-]. simpl. f_equal. by apply IH.
Qed.

Lemma select_columns_width (X X' : Matrix) (cols : list nat) :
  select_columns X (Some cols) = Ok X' →
  length X' = length X ∧ Forall (λ row, length row = length cols) X'.
Proof.
  unfold select_columns. revert X'.
  induction X as [|row X IH]; intros X'; simpl.
  { intros [= <-]. by split. }
  destruct (foldr _ _ X) as [rest'|e]; [|done]. rewrite bind_Ok.
  destruct (foldr _ (Ok []) cols) as [row'|e] eqn:Hrow; [|done].
  rewrite bind_Ok. intros [= <-].
  destruct (IH rest' eq_refl) as [Hlen Hall]. split; [simpl; by f_equal|].
  constructor; [|done]. by eapply select_row_length.
Qed.

(** [X22] Lines 93-99: a matrix returned by [transform] has one entry per
    selected column in every row. *)
Theorem transform_width (self : Featurizer) (queries : list string)
    (cols : list nat) (X : Matrix) :
  best_features self = Some cols →
  transform self queries = Ok X →
  Forall (λ row, length row = length cols) X.
Proof.
  intros Hcols. unfold transform.
  destruct (preprocess_queries self queries) as [preprocessed|e]; [|done].
  rewrite bind_Ok.
  destruct (sk_transform _ preprocessed) as [X0|e]; [|done].
  rewrite bind_Ok, Hcols. intros HX.
  by apply select_columns_width in HX as [_ ?].
Qed.

End fit_states.

(** ** Instances of the further properties *)

Lemma select_features_sublist_witness :
  [0%nat; 2%nat] `sublist_of` seq 0 (length Demo.pval).
Proof.
  apply (select_features_sublist Demo.tokens Demo.stop_words Demo.pval
           (Q2Qc (2 # 5))).
  vm_compute. reflexivity.
Defined.

Lemma features_idx_lookup_witness :
  Selector.features_idx {["go" := 0%nat; "office" := 1%nat]} !! 1%nat
    = Some "office" ↔
  ({["go" := 0%nat; "office" := 1%nat]} : gmap string nat) !! "office"
    = Some 1%nat.
Proof.
  apply features_idx_lookup. intros x1 x2 j H1 H2.
  apply lookup_insert_Some in H1 as [[<- <-]|[Hx1 H1]];
    apply lookup_insert_Some in H2 as [[<- Hj]|[Hx2 H2]];
    try apply lookup_singleton_Some in H1 as [<- <-];
    try apply lookup_singleton_Some in H2 as [<- Hj'];
    congruence.
Defined.

Lemma fitted_lexicon_values_nonempty_witness :
  ∃ f, has_feature
         (@fitted_lexicon Demo.world (Demo.fresh false None) Demo.dataset)
         "office" f.
Proof.
  apply (@fitted_lexicon_values_nonempty Demo.world).
  apply demo_is_Some. vm_compute. exact I.
Defined.

Lemma word_cluster_features_missing_resource_witness :
  (@get_all_ngrams Demo.world_without_clusters ["go"] = [] →
     @_get_word_cluster_features Demo.world_without_clusters ["go"] "en"
     = Ok []) ∧
  (@get_all_ngrams Demo.world_without_clusters ["go"] ≠ [] →
     @_get_word_cluster_features Demo.world_without_clusters ["go"] "en"
     = Raise (KeyError (KStr "brown"))).
Proof.
  apply (@word_cluster_features_missing_resource Demo.world_without_clusters).
  - vm_compute. reflexivity.
  - discriminate.
  - vm_compute. reflexivity.
Defined.

Lemma transform_without_lexicon_raises_witness :
  @transform Demo.world (Demo.fresh false None) ["go"]
  = Raise (AttributeError "get").
Proof.
  apply (@transform_without_lexicon_raises Demo.world).
  - vm_compute. reflexivity.
  - exact demo_cluster_resource_available.
  - exists "go". split; [apply elem_of_cons; by left|].
    vm_compute. discriminate.
Defined.

Lemma unfitted_roundtrip_resets_lexicon_witness :
  ∃ self',
    @to_dict Demo.world (Demo.fresh true None) ≫= @from_dict Demo.world
      = Ok self' ∧
    entity_utterances_to_feature_names self' = Some ∅ ∧
    vocabulary_ (tfidf_vectorizer self') = None ∧
    _idf_diag (_tfidf (tfidf_vectorizer self')) = None ∧
    best_features self' = best_features (Demo.fresh true None) ∧
    pvalue_threshold self' = pvalue_threshold (Demo.fresh true None) ∧
    language self' = language (Demo.fresh true None) ∧
    config self' = config (Demo.fresh true None) ∧
    unknown_words_replacement_string self'
      = unknown_words_replacement_string (Demo.fresh true None).
Proof.
  apply (@unfitted_roundtrip_resets_lexicon Demo.world).
  - vm_compute. reflexivity.
  - vm_compute. reflexivity.
Defined.

Lemma empty_corpus_snapshot_drops_lexicon_witness :
  entity_utterances_to_feature_names
    (@fit Demo.world (Demo.fresh false None) Demo.dataset
       Demo.blank_queries []).1
    = Some (@fitted_lexicon Demo.world (Demo.fresh false None)
              Demo.dataset) ∧
  ∃ self',
    @to_dict Demo.world
      (@fit Demo.world (Demo.fresh false None) Demo.dataset
         Demo.blank_queries []).1 ≫= @from_dict Demo.world = Ok self' ∧
    entity_utterances_to_feature_names self' = Some ∅.
Proof.
  apply (@empty_corpus_snapshot_drops_lexicon Demo.world).
  - exact demo_blank_queries.
  - vm_compute. reflexivity.
  - vm_compute. reflexivity.
Defined.

Lemma listed_snapshot_possible (names : list string) :
  names ≡ₚ ["entityfeatureroom"; "entityfeaturethe_office"] →
  @possible_snapshot Demo.world Demo.listed_featurizer
    (Demo.listed_snapshot names).
Proof.
  intros Hnames. eexists. split; [reflexivity|].
  repeat (split; [reflexivity|]).
  change (∀ k, option_Forall2 (≡ₚ)
    (({["office" := names]} : gmap string (list string)) !! k)
    ((elements <$>
        ({["office" := {["entityfeatureroom"; "entityfeaturethe_office"]}]}
           : gmap string (gset string))) !! k)).
  intros k. rewrite lookup_fmap.
  destruct (decide (k = "office")) as [->|Hk].
  - rewrite !lookup_singleton_eq. simpl. constructor. rewrite Hnames.
    apply NoDup_Permutation.
    + apply NoDup_cons. split; [|apply NoDup_singleton].
      intros Hin. apply elem_of_cons in Hin as [Heq|Hin]; [done|].
      by apply elem_of_nil in Hin.
    + apply NoDup_elements.
    + intros x. rewrite elem_of_elements. set_solver.
  - rewrite !lookup_singleton_ne by done. constructor.
Defined.

Lemma snapshot_stable_up_to_order_witness :
  (∃ self',
     @from_dict Demo.world
       (Demo.listed_snapshot
          ["entityfeatureroom"; "entityfeaturethe_office"]) = Ok self' ∧
     @possible_snapshot Demo.world self'
       (Demo.listed_snapshot
          ["entityfeatureroom"; "entityfeaturethe_office"])) ∧
  (∃ self',
     @from_dict Demo.world
       (Demo.listed_snapshot
          ["entityfeaturethe_office"; "entityfeatureroom"]) = Ok self' ∧
     @possible_snapshot Demo.world self'
       (Demo.listed_snapshot
          ["entityfeaturethe_office"; "entityfeatureroom"])).
Proof.
  split;
    apply (@snapshot_stable_up_to_order Demo.world Demo.listed_featurizer).
  - by apply listed_snapshot_possible.
  - vm_compute. reflexivity.
  - apply listed_snapshot_possible. apply Permutation_swap.
  - vm_compute. reflexivity.
Defined.

Lemma roundtrip_identity_default_options_witness :
  @to_dict Demo.world (Demo.fitted false) ≫= @from_dict Demo.world
  = Ok (Demo.fitted false).
Proof.
  apply (@roundtrip_identity_default_options Demo.world).
  - apply demo_is_Some. vm_compute. exact I.
  - apply demo_is_Some. vm_compute. exact I.
  - apply demo_is_Some. vm_compute. exact I.
  - vm_compute. reflexivity.
  - vm_compute. reflexivity.
  - vm_compute. reflexivity.
  - repeat split; vm_compute; reflexivity.
Defined.

Lemma from_dict_default_transformer_witness :
  default_options (_tfidf (tfidf_vectorizer Demo.mismatched_featurizer)) ∧
  tokenizer_language (tfidf_vectorizer Demo.mismatched_featurizer)
    = language Demo.mismatched_featurizer ∧
  init_kwargs (tfidf_vectorizer Demo.mismatched_featurizer)
    = @config_to_dict Demo.world (config Demo.mismatched_featurizer).
Proof.
  apply (@from_dict_default_transformer Demo.world Demo.mismatched_snapshot).
  reflexivity.
Defined.

Lemma from_dict_lexicon_order_insensitive_witness :
  @from_dict Demo.world
    {| d_language_code := d_language_code Demo.mismatched_snapshot;
       d_tfidf_vectorizer := d_tfidf_vectorizer Demo.mismatched_snapshot;
       d_best_features := d_best_features Demo.mismatched_snapshot;
       d_pvalue_threshold := d_pvalue_threshold Demo.mismatched_snapshot;
       d_entity_utterances_to_feature_names := Some Demo.listed_once;
       d_config := d_config Demo.mismatched_snapshot;
       d_unknown_words_replacement_string :=
         d_unknown_words_replacement_string Demo.mismatched_snapshot |}
  = @from_dict Demo.world
    {| d_language_code := d_language_code Demo.mismatched_snapshot;
       d_tfidf_vectorizer := d_tfidf_vectorizer Demo.mismatched_snapshot;
       d_best_features := d_best_features Demo.mismatched_snapshot;
       d_pvalue_threshold := d_pvalue_threshold Demo.mismatched_snapshot;
       d_entity_utterances_to_feature_names := Some Demo.listed_twice;
       d_config := d_config Demo.mismatched_snapshot;
       d_unknown_words_replacement_string :=
         d_unknown_words_replacement_string Demo.mismatched_snapshot |}.
Proof.
  apply (@from_dict_lexicon_order_insensitive Demo.world).
  intros k. unfold Demo.listed_once, Demo.listed_twice.
  destruct (decide (k = "office")) as [->|Hk].
  - rewrite !lookup_singleton_eq. constructor. intros x.
    rewrite !elem_of_cons. tauto.
  - rewrite !lookup_singleton_ne by done. constructor.
Defined.

Lemma fit_returns_self_fitted_witness :
  (∃ q, q ∈ Demo.queries ∧
     join "" (@tokenize_light Demo.world q
                (language (Demo.fresh false None))) ≠ "") ∧
  is_Some (vocabulary_ (tfidf_vectorizer
    (@fit Demo.world (Demo.fresh false None) Demo.dataset Demo.queries
       Demo.labels).1)) ∧
  entity_utterances_to_feature_names
    (@fit Demo.world (Demo.fresh false None) Demo.dataset Demo.queries
       Demo.labels).1
    = Some (@fitted_lexicon Demo.world (Demo.fresh false None)
              Demo.dataset) ∧
  (∃ final,
     best_features
       (@fit Demo.world (Demo.fresh false None) Demo.dataset Demo.queries
          Demo.labels).1 = Some final ∧ NoDup final) ∧
  language
    (@fit Demo.world (Demo.fresh false None) Demo.dataset Demo.queries
       Demo.labels).1 = language (Demo.fresh false None) ∧
  config
    (@fit Demo.world (Demo.fresh false None) Demo.dataset Demo.queries
       Demo.labels).1 = config (Demo.fresh false None) ∧
  pvalue_threshold
    (@fit Demo.world (Demo.fresh false None) Demo.dataset Demo.queries
       Demo.labels).1 = pvalue_threshold (Demo.fresh false None) ∧
  unknown_words_replacement_string
    (@fit Demo.world (Demo.fresh false None) Demo.dataset Demo.queries
       Demo.labels).1
    = unknown_words_replacement_string (Demo.fresh false None).
Proof.
  apply (@fit_returns_self_fitted Demo.world).
  vm_compute. reflexivity.
Defined.

Lemma fit_chi2_failure_not_atomic_witness :
  (@fit Demo.world_checking_labels Demo.previously_fitted Demo.dataset
     ["go"] []).2 = Raise ValueError ∧
  tfidf_vectorizer
    (@fit Demo.world_checking_labels Demo.previously_fitted Demo.dataset
       ["go"] []).1 = Demo.go_vectorizer ∧
  best_features
    (@fit Demo.world_checking_labels Demo.previously_fitted Demo.dataset
       ["go"] []).1 = best_features Demo.previously_fitted ∧
  entity_utterances_to_feature_names
    (@fit Demo.world_checking_labels Demo.previously_fitted Demo.dataset
       ["go"] []).1
    = Some (@fitted_lexicon Demo.world_checking_labels
              Demo.previously_fitted Demo.dataset).
Proof.
  apply (@fit_chi2_failure_not_atomic Demo.world_checking_labels
           Demo.previously_fitted Demo.dataset ["go"] ["go"] []
           Demo.go_vectorizer [[Demo.of_nat 1]] ValueError).
  - vm_compute. reflexivity.
  - vm_compute. reflexivity.
  - vm_compute. reflexivity.
  - by eexists.
  - vm_compute. reflexivity.
Defined.

Lemma transform_width_witness :
  Forall (λ row : list Qc, length row = length [0%nat])
    [[Demo.of_nat 1]; [Demo.of_nat 0]].
Proof.
  apply (@transform_width Demo.world Demo.mismatched_featurizer
           ["go"; "office"] [0%nat] [[Demo.of_nat 1]; [Demo.of_nat 0]]).
  - vm_compute. reflexivity.
  - vm_compute. reflexivity.
Defined.
